(** * Advanced Movie Data Analysis: the filter and aggregation pipeline

    A shallow embedding of [main.py].  A data frame is the list of its rows
    in index order; a numeric cell that pandas holds as a float is an
    [option Q] whose [None] is NaN (the cell [pd.to_numeric] or
    [pd.to_datetime] could not coerce); the year, which [dt.year] yields as
    a whole number, is an [option Z].  Sums, means and correlations are
    the exact ones, over the rationals and the reals: the rounding of
    binary64 and the wrap-around of an integer column are not part of the
    embedding.  The pandas calls of the script are written out as list
    functions following the pandas documentation of each call; where a
    sort leaves the order of equal keys open, that order is a parameter. *)

From Stdlib Require Import List Bool Arith ZArith QArith Qreals Reals Lra Lia.
From Stdlib Require Import String Ascii Permutation Sorted.
From Stdlib Require Import OrderedTypeEx.
Import ListNotations.

Set Implicit Arguments.
Set Warnings "-register-all".
Set Warnings "-automation".


Local Close Scope Q_scope.
Local Open Scope string_scope.
Local Open Scope list_scope.

(** ** Data model *)

(** One row of the loaded frame, with the columns the script reads. *)
Record Row : Type := mkRow {
  title : string;
  year : option Z;
  budget : option Q;
  revenue : option Q;
  vote_average : option Q;
  vote_count : option Q;
  runtime : option Q;
  genres_list : list string
}.

(** The three sidebar widgets: [genre_filter], [year_range] and
    [min_votes]. *)
Record FilterCriteria : Type := mkCriteria {
  genre_filter : list string;
  year_lo : Z;
  year_hi : Z;
  min_votes : Z
}.

Definition DataFrame := list Row.

(** ** Row filter (main.py, lines 46-52) *)

(** [Series.between(left, right)]: inclusive on both sides, and false on a
    missing value. *)
Definition between (v : option Z) (left right : Z) : bool :=
  match v with
  | Some y => (left <=? y)%Z && (y <=? right)%Z
  | None => false
  end.

(** [series >= n] on a float column: false on NaN. *)
Definition ge_votes (v : option Q) (n : Z) : bool :=
  match v with
  | Some q => Qle_bool (inject_Z n) q
  | None => false
  end.

(** [g in x] for a list [x] of names: Python's [==] on [str]. *)
Definition py_in (g : string) (x : list string) : bool :=
  existsb (String.eqb g) x.

(** [any(g in x for g in genre_filter)] *)
Definition any_genre (c : FilterCriteria) (x : list string) : bool :=
  existsb (fun g => py_in g x) (genre_filter c).

(** The boolean mask of lines 47-48. *)
Definition base_mask (c : FilterCriteria) (r : Row) : bool :=
  between (year r) (year_lo c) (year_hi c) && ge_votes (vote_count r) (min_votes c).

(** [filtered_df]: the mask of lines 46-49, then the genre selection of
    lines 51-52, which runs only when [genre_filter] is a non-empty list. *)
Definition filtered_df (df : DataFrame) (c : FilterCriteria) : DataFrame :=
  let filtered := filter (base_mask c) df in
  match genre_filter c with
  | [] => filtered
  | _ :: _ => filter (fun r => any_genre c (genres_list r)) filtered
  end.

(** ** Genre parser (main.py, lines 24-31) *)

(** The values [ast.literal_eval] can return: strings, bytes, numbers,
    tuples, lists, dicts, sets, booleans, [None] and [Ellipsis].  A dict is
    the list of its items in insertion order. *)
Inductive pyval : Type :=
| PNone
| PEllipsis
| PBool (b : bool)
| PInt (z : Z)
| PFloat (q : Q)
| PComplex (re im : Q)
| PStr (s : string)
| PBytes (s : string)
| PTuple (l : list pyval)
| PList (l : list pyval)
| PSet (l : list pyval)
| PDict (items : list (pyval * pyval)).

(** Outcome of a Python expression: a value, or a raised exception. *)
Inductive exc (A : Type) : Type :=
| Ok (a : A)
| Raised.

Arguments Ok {A} a.
Arguments Raised {A}.

Definition exc_bind {A B : Type} (m : exc A) (f : A -> exc B) : exc B :=
  match m with
  | Ok a => f a
  | Raised => Raised
  end.

Notation "x <- m ;; k" := (exc_bind m (fun x => k))
  (at level 61, m at next level, right associativity).

(** [try: body  except: handler] with a bare [except], which catches
    every exception. *)
Definition try_except {A : Type} (body handler : exc A) : exc A :=
  match body with
  | Ok a => Ok a
  | Raised => handler
  end.

(** ['name' == v]: a [str] equals only a [str] with the same characters. *)
Definition is_name (v : pyval) : bool :=
  match v with
  | PStr s => String.eqb s "name"
  | _ => false
  end.

(** [sub in s] on two [str]: the substring test. *)
Fixpoint str_contains (sub s : string) : bool :=
  String.prefix sub s ||
  match s with
  | EmptyString => false
  | String _ s' => str_contains sub s'
  end.

(** ['name' in d].  Key membership on a dict, element membership on a
    list, tuple or set, substring test on a [str]; a [TypeError] on every
    other value (numbers, booleans, [None], [Ellipsis] are not iterable and
    a [bytes] refuses a [str] operand). *)
Definition contains_name (d : pyval) : exc bool :=
  match d with
  | PDict items => Ok (existsb (fun kv => is_name (fst kv)) items)
  | PList l | PTuple l | PSet l => Ok (existsb is_name l)
  | PStr s => Ok (str_contains "name" s)
  | _ => Raised
  end.

(** Value bound to ['name'] in the items of a dict; a later item with the
    same key overrides an earlier one. *)
Fixpoint dict_lookup_name (items : list (pyval * pyval)) : option pyval :=
  match items with
  | [] => None
  | (k, v) :: rest =>
      match dict_lookup_name rest with
      | Some v' => Some v'
      | None => if is_name k then Some v else None
      end
  end.

(** [d.get('name')]: only a dict has the method, every other value raises
    [AttributeError]. *)
Definition get_name (d : pyval) : exc pyval :=
  match d with
  | PDict items =>
      Ok (match dict_lookup_name items with Some v => v | None => PNone end)
  | _ => Raised
  end.

(** [[d.get('name') for d in genres if 'name' in d]] *)
Fixpoint names_of (genres : list pyval) : exc (list pyval) :=
  match genres with
  | [] => Ok []
  | d :: rest =>
      b <- contains_name d ;;
      if b then
        v <- get_name d ;;
        vs <- names_of rest ;;
        Ok (v :: vs)
      else names_of rest
  end.

Section Parser.

(** [ast.literal_eval] on a text, from Python's standard library: the
    value the text denotes, or an exception. *)
Variable literal_eval : string -> exc pyval.

(** A cell of the [genres] column is a text, or NaN when the CSV field is
    empty; [ast.literal_eval] raises [ValueError] on a float. *)
Definition literal_eval_cell (x : option string) : exc pyval :=
  match x with
  | Some s => literal_eval s
  | None => Raised
  end.

(** [parse_genres]: the [try] block returns the comprehension when the
    value is a list and otherwise falls through to the last
    [return []]; the handler returns [[]]. *)
Definition parse_genres (x : option string) : exc (list pyval) :=
  try_except
    (genres <- literal_eval_cell x ;;
     match genres with
     | PList l => names_of l
     | _ => Ok []
     end)
    (Ok []).

End Parser.

(** ** Column reductions *)

(** The non-missing values of a column, in row order. *)
Fixpoint dropna (s : list (option Q)) : list Q :=
  match s with
  | [] => []
  | Some q :: rest => q :: dropna rest
  | None :: rest => dropna rest
  end.

Definition Qsum (l : list Q) : Q := fold_right Qplus 0%Q l.

(** [Series.sum()]: missing values are skipped, the empty sum is 0.  The
    sum is the exact one: neither the rounding of a float column nor the
    wrap-around of an integer column is part of it. *)
Definition series_sum (s : list (option Q)) : Q := Qsum (dropna s).

(** [Series.mean()]: missing values are skipped, NaN when none is left.
    The mean is the exact quotient, without the rounding of binary64. *)
Definition series_mean (s : list (option Q)) : option Q :=
  match dropna s with
  | [] => None
  | vs => Some (Qsum vs / inject_Z (Z.of_nat (List.length vs)))%Q
  end.

(** ** Ordering by a float key, largest first *)

(** [a] may stand before [b] in descending order; NaN goes last. *)
Definition ge_desc (a b : option Q) : bool :=
  match a, b with
  | Some x, Some y => Qle_bool y x
  | Some _, None => true
  | None, Some _ => false
  | None, None => true
  end.

(** Two keys tie: both NaN, or equal numbers. *)
Definition key_eqb (a b : option Q) : bool :=
  match a, b with
  | Some x, Some y => Qeq_bool x y
  | None, None => true
  | _, _ => false
  end.

(** [sort_values] sorts with numpy's quicksort, and so does [nlargest] on
    a frame of at most [n] rows; that sort does not say in which order it
    leaves rows of equal key.  A [TieBreak] is its choice: [tb ks i j]
    tells whether, on the key column [ks], the row at position [i] is put
    before the row at position [j] when their keys tie. *)
Definition TieBreak : Type := list (option Q) -> nat -> nat -> bool.

(** The choice that leaves tied rows in their original order, and the one
    that reverses them. *)
Definition first_come : TieBreak := fun _ i j => Nat.leb i j.

Definition last_come : TieBreak := fun _ i j => Nat.leb j i.

(** The rows with their positions. *)
Definition enumerate {A : Type} (l : list A) : list (nat * A) :=
  combine (seq 0 (List.length l)) l.

Section SortDesc.

Variable A : Type.
Variable key : A -> option Q.
Variable tb : TieBreak.

(** Whether [x] goes before [y] in descending order of the key column
    [ks]: by the keys when they differ, by the choice of the sort when
    they tie. *)
Definition goes_before (ks : list (option Q)) (x y : nat * A) : bool :=
  if key_eqb (key (snd x)) (key (snd y)) then tb ks (fst x) (fst y)
  else ge_desc (key (snd x)) (key (snd y)).

Fixpoint insert_desc (ks : list (option Q)) (x : nat * A) (l : list (nat * A)) :
  list (nat * A) :=
  match l with
  | [] => [x]
  | y :: ys =>
      if goes_before ks x y then x :: y :: ys
      else y :: insert_desc ks x ys
  end.

(** [sort_values(by, ascending=False)]: the rows in descending order of
    the key, missing keys last, tied rows as the sort leaves them. *)
Definition sort_desc (l : list A) : list A :=
  map snd (fold_right (insert_desc (map key l)) [] (enumerate l)).

End SortDesc.

(** [nlargest(n, column)] with the default [keep='first']: the first [n]
    rows in descending order of the column.  On a frame of at most [n]
    rows the call is [sort_values(ascending=False).head(n)]; on a longer
    frame it selects with a stable sort, which leaves tied rows in their
    original order. *)
Definition nlargest {A : Type} (key : A -> option Q) (tb : TieBreak)
  (n : nat) (l : list A) : list A :=
  if Nat.leb (List.length l) n then firstn n (sort_desc key tb l)
  else firstn n (sort_desc key first_come l).

(** ** Grouping *)

Section GroupKeys.

Variable K : Type.
Variable cmp : K -> K -> comparison.

Fixpoint insert_key (k : K) (ks : list K) : list K :=
  match ks with
  | [] => [k]
  | k' :: rest =>
      match cmp k k' with
      | Lt => k :: k' :: rest
      | Eq => k' :: rest
      | Gt => k' :: insert_key k rest
      end
  end.

(** The group keys of [groupby]: the distinct non-missing keys in
    ascending order ([sort=True], [dropna=True]). *)
Fixpoint group_keys (ks : list (option K)) : list K :=
  match ks with
  | [] => []
  | Some k :: rest => insert_key k (group_keys rest)
  | None :: rest => group_keys rest
  end.

End GroupKeys.

(** The strict order of a three-way comparison. *)
Definition key_lt {K : Type} (cmp : K -> K -> comparison) (a b : K) : Prop :=
  cmp a b = Lt.

Definition opt_eqb {K : Type} (eqb : K -> K -> bool) (k : K) (o : option K) : bool :=
  match o with
  | Some k' => eqb k k'
  | None => false
  end.

(** The rows of the group of key [k], and the test for a row that has a
    key at all ([groupby] leaves the others out). *)
Definition group_of {A K : Type} (eqb : K -> K -> bool) (kf : A -> option K)
  (k : K) (l : list A) : list A :=
  filter (fun a => opt_eqb eqb k (kf a)) l.

Definition has_key {A K : Type} (kf : A -> option K) (a : A) : bool :=
  match kf a with Some _ => true | None => false end.

(** [explode('genres_list')]: one copy of the row per element of its
    list, and one copy with a missing key for a row whose list is empty. *)
Definition explode (df : DataFrame) : list (option string * Row) :=
  flat_map
    (fun r =>
       match genres_list r with
       | [] => [(None, r)]
       | gs => map (fun g => (Some g, r)) gs
       end)
    df.

(** The exploded rows of one genre group. *)
Definition genre_group (g : string) (ex : list (option string * Row)) :
  list (option string * Row) :=
  filter (fun p => opt_eqb String.eqb g (fst p)) ex.

(** [explode(...).groupby('genres_list')['revenue'].mean().reset_index()] *)
Definition mean_revenue_groups (df : DataFrame) : list (string * option Q) :=
  let ex := explode df in
  map (fun g => (g, series_mean (map (fun p => revenue (snd p)) (genre_group g ex))))
      (group_keys String.compare (map fst ex)).

(** [revenue_by_genre] (lines 80-86). *)
Definition revenue_by_genre (tb : TieBreak) (df : DataFrame) :
  list (string * option Q) :=
  sort_desc snd tb (mean_revenue_groups df).

Definition year_group (y : Z) (df : DataFrame) : DataFrame :=
  filter (fun r => opt_eqb Z.eqb y (year r)) df.

(** [movies_per_year] (line 92): [groupby('year').size()]. *)
Definition movies_per_year (df : DataFrame) : list (Z * nat) :=
  map (fun y => (y, List.length (year_group y df)))
      (group_keys Z.compare (map year df)).

(** [avg_rating_per_year] (line 96). *)
Definition avg_rating_per_year (df : DataFrame) : list (Z * option Q) :=
  map (fun y => (y, series_mean (map vote_average (year_group y df))))
      (group_keys Z.compare (map year df)).

(** ** Top tables (lines 76 and 108) *)

(** [top_revenue = filtered_df.nlargest(20, 'revenue')] *)
Definition top_revenue (tb : TieBreak) (df : DataFrame) : DataFrame :=
  nlargest revenue tb 20 df.

(** The columns kept by
    [filtered_df[['title', 'year', 'vote_average', 'revenue', 'genres_list']]]. *)
Record Top10Row : Type := mkTop10Row {
  t10_title : string;
  t10_year : option Z;
  t10_vote_average : option Q;
  t10_revenue : option Q;
  t10_genres_list : list string
}.

Definition project_top10 (r : Row) : Top10Row :=
  {| t10_title := title r;
     t10_year := year r;
     t10_vote_average := vote_average r;
     t10_revenue := revenue r;
     t10_genres_list := genres_list r |}.

(** The table of line 108: the projection, then
    [nlargest(10, 'vote_average')]. *)
Definition top_rated (tb : TieBreak) (df : DataFrame) : list Top10Row :=
  nlargest t10_vote_average tb 10 (map project_top10 df).

(** ** Correlation matrix (line 102) *)

Inductive NumCol : Type := Budget | Revenue | VoteAverage | VoteCount | Runtime.

(** The column list of line 102, in its order. *)
Definition numeric_columns : list NumCol :=
  [Budget; Revenue; VoteAverage; VoteCount; Runtime].

Definition num_col (a : NumCol) (r : Row) : option Q :=
  match a with
  | Budget => budget r
  | Revenue => revenue r
  | VoteAverage => vote_average r
  | VoteCount => vote_count r
  | Runtime => runtime r
  end.

(** The observations of a pair of columns: the rows where both cells are
    present. *)
Fixpoint complete_pairs (a b : NumCol) (df : DataFrame) : list (R * R) :=
  match df with
  | [] => []
  | r :: rest =>
      match num_col a r, num_col b r with
      | Some x, Some y => (Q2R x, Q2R y) :: complete_pairs a b rest
      | _, _ => complete_pairs a b rest
      end
  end.

Definition Rsum (l : list R) : R := fold_right Rplus 0%R l.

Definition Rmean (l : list R) : R := (Rsum l / INR (List.length l))%R.

(** Sum of the products of the deviations from the means. *)
Definition co_deviation (ps : list (R * R)) : R :=
  let mx := Rmean (map fst ps) in
  let my := Rmean (map snd ps) in
  Rsum (map (fun p => ((fst p - mx) * (snd p - my))%R) ps).

Definition sq_deviation (xs : list R) : R :=
  let m := Rmean xs in
  Rsum (map (fun x => ((x - m) * (x - m))%R) xs).

(** Pearson's coefficient as [DataFrame.corr()] computes it with its
    default [min_periods=1]: NaN without an observation, and NaN when the
    divisor is zero. *)
Definition pearson (ps : list (R * R)) : option R :=
  match ps with
  | [] => None
  | _ :: _ =>
      let divisor := sqrt (sq_deviation (map fst ps) * sq_deviation (map snd ps)) in
      if Req_dec_T divisor 0%R then None
      else Some (co_deviation ps / divisor)%R
  end.

Definition corr_entry (df : DataFrame) (a b : NumCol) : option R :=
  pearson (complete_pairs a b df).

(** [corr]: the 5 x 5 frame, one inner list per row of the matrix. *)
Definition corr (df : DataFrame) : list (list (option R)) :=
  map (fun a => map (fun b => corr_entry df a b) numeric_columns) numeric_columns.

(** ** The pipeline *)

(** Everything the script derives from [filtered_df]. *)
Record FilteredResult : Type := mkResult {
  r_filtered : DataFrame;
  r_movies_count : nat;
  r_average_rating : option Q;
  r_total_revenue : Q;
  r_average_runtime : option Q;
  r_top_revenue : DataFrame;
  r_revenue_by_genre : list (string * option Q);
  r_movies_per_year : list (Z * nat);
  r_avg_rating_per_year : list (Z * option Q);
  r_corr : list (list (option R));
  r_top_rated : list Top10Row
}.

(** Lines 57-108 on a filtered frame.  The metrics are the values handed
    to [round] and to the format string. *)
Definition aggregates (tb : TieBreak) (fdf : DataFrame) : FilteredResult :=
  {| r_filtered := fdf;
     r_movies_count := List.length fdf;
     r_average_rating := series_mean (map vote_average fdf);
     r_total_revenue := series_sum (map revenue fdf);
     r_average_runtime := series_mean (map runtime fdf);
     r_top_revenue := top_revenue tb fdf;
     r_revenue_by_genre := revenue_by_genre tb fdf;
     r_movies_per_year := movies_per_year fdf;
     r_avg_rating_per_year := avg_rating_per_year fdf;
     r_corr := corr fdf;
     r_top_rated := top_rated tb fdf |}.

Definition apply_criteria (tb : TieBreak) (df : DataFrame) (c : FilterCriteria) :
  FilteredResult :=
  aggregates tb (filtered_df df c).

(** ** The script over a store of frames

    Python names are bound to objects; every pandas call of lines 46-108
    builds a new frame and none writes into an existing one.  The store is
    the list of the frame objects, a reference is a position in it.  A
    frame object is its rows together with whether it still has its
    columns. *)

Record Frame : Type := mkFrame {
  has_columns : bool;
  rows : DataFrame
}.

Definition store := list Frame.
Definition ref := nat.

Definition Script (A : Type) : Type := store -> exc A * store.

Definition sc_ret {A : Type} (a : A) : Script A := fun h => (Ok a, h).

Definition sc_raise {A : Type} : Script A := fun h => (Raised, h).

Definition sc_bind {A B : Type} (m : Script A) (f : A -> Script B) : Script B :=
  fun h =>
    match m h with
    | (Ok a, h') => f a h'
    | (Raised, h') => (Raised, h')
    end.

Notation "x <~ m ;; k" := (sc_bind m (fun x => k))
  (at level 61, m at next level, right associativity).

(** A new frame object. *)
Definition alloc (f : Frame) : Script ref :=
  fun h => (Ok (List.length h), h ++ [f]).

(** The frame behind a name. *)
Definition deref (l : ref) : Script Frame :=
  fun h =>
    match nth_error h l with
    | Some f => (Ok f, h)
    | None => (Raised, h)
    end.

(** [frame['column']]: [KeyError] on a frame that has no columns. *)
Definition columns_of (f : Frame) : Script DataFrame :=
  if has_columns f then sc_ret (rows f) else sc_raise.

(** [frame[mask]] for a boolean column [mask]: the rows where it holds. *)
Definition getitem_mask (t : DataFrame) (mask : Row -> bool) : Frame :=
  mkFrame true (filter mask t).

(** [frame[frame['genres_list'].apply(test)]].  On a frame with rows
    [Series.apply] yields the boolean column of the test, a row mask.  On a
    frame without rows it does not call the test and yields an empty column
    of the dtype of ['genres_list'], which is [object];
    [DataFrame.__getitem__] takes a column of dtype [object] for a row mask
    only when it is non-empty and holds booleans, and otherwise for a list
    of column labels: the empty key selects no column, and the result is a
    frame without columns. *)
Definition getitem_apply (t : DataFrame) (test : Row -> bool) : Frame :=
  match t with
  | [] => mkFrame false []
  | _ :: _ => getitem_mask t test
  end.

(** Lines 46-52: [df[mask]] builds a frame, and under a non-empty
    [genre_filter] the name [filtered_df] is bound again to a further new
    frame. *)
Definition run_filter (df : ref) (c : FilterCriteria) : Script ref :=
  f <~ deref df ;;
  t <~ columns_of f ;;
  fdf <~ alloc (getitem_mask t (base_mask c)) ;;
  match genre_filter c with
  | [] => sc_ret fdf
  | _ :: _ =>
      f' <~ deref fdf ;;
      t' <~ columns_of f' ;;
      alloc (getitem_apply t' (fun r => any_genre c (genres_list r)))
  end.

(** A marker size plotly accepts: a number that is not negative.  A
    missing or negative size makes [px.scatter] raise [ValueError]. *)
Definition marker_size_ok (v : option Q) : bool :=
  match v with
  | Some q => Qle_bool 0 q
  | None => false
  end.

(** [px.scatter(frame, ..., size=column)] on the sizes of the column. *)
Definition px_scatter_sized (sizes : list (option Q)) : Script unit :=
  if forallb marker_size_ok sizes then sc_ret tt else sc_raise.

(** One run of the script on the cached frame [df]: line 57 takes the
    length of the frame, lines 58-108 read its columns; the scatter plots
    of lines 66 and 72 take their marker sizes from ['vote_count'] and from
    ['vote_average'].  The other chart calls take any column. *)
Definition run_script (tb : TieBreak) (df : ref) (c : FilterCriteria) :
  Script FilteredResult :=
  fdf <~ run_filter df c ;;
  f <~ deref fdf ;;
  t <~ columns_of f ;;
  _ <~ px_scatter_sized (map vote_count t) ;;
  _ <~ px_scatter_sized (map vote_average t) ;;
  sc_ret (aggregates tb t).

(** Whether the two scatter plots accept the filtered rows: every vote
    count and every rating is a valid marker size. *)
Definition charts_ok (t : DataFrame) : bool :=
  forallb marker_size_ok (map vote_count t) &&
  forallb marker_size_ok (map vote_average t).

(** Whether the frame bound to [filtered_df] after line 52 still has its
    columns: it loses them when a genre is selected and the mask of lines
    47-48 holds for no row. *)
Definition keeps_columns (t : DataFrame) (c : FilterCriteria) : bool :=
  match genre_filter c with
  | [] => true
  | _ :: _ =>
      match filter (base_mask c) t with
      | [] => false
      | _ :: _ => true
      end
  end.

(** ** Sidebar widgets (lines 41-44) *)

(** [sorted(set(names))] on strings: the distinct names in ascending
    order. *)
Definition sorted_set (names : list string) : list string :=
  fold_right (insert_key String.compare) [] names.

(** [all_genres] (line 41): every name of every row's list; the test
    [isinstance(sublist, list)] holds for every cell of ['genres_list']. *)
Definition all_genres (df : DataFrame) : list string :=
  sorted_set (flat_map genres_list df).

(** [Series.min()] and [Series.max()] on the year column: missing values
    are skipped, NaN when none is left. *)
Fixpoint series_min (s : list (option Z)) : option Z :=
  match s with
  | [] => None
  | None :: rest => series_min rest
  | Some y :: rest =>
      match series_min rest with
      | Some m => Some (Z.min y m)
      | None => Some y
      end
  end.

Fixpoint series_max (s : list (option Z)) : option Z :=
  match s with
  | [] => None
  | None :: rest => series_max rest
  | Some y :: rest =>
      match series_max rest with
      | Some m => Some (Z.max y m)
      | None => Some y
      end
  end.

(** [int(v)] on a float that holds a whole number or NaN: [ValueError] on
    NaN. *)
Definition py_int (v : option Z) : exc Z :=
  match v with
  | Some z => Ok z
  | None => Raised
  end.

(** The two bounds handed to the year slider (line 43):
    [int(df['year'].min())] and [int(df['year'].max())]. *)
Definition year_slider_bounds (df : DataFrame) : exc (Z * Z) :=
  lo <- py_int (series_min (map year df)) ;;
  hi <- py_int (series_max (map year df)) ;;
  Ok (lo, hi).

(** The criteria with another genre selection. *)
Definition set_genres (c : FilterCriteria) (gs : list string) : FilterCriteria :=
  {| genre_filter := gs;
     year_lo := year_lo c;
     year_hi := year_hi c;
     min_votes := min_votes c |}.

(** ** The genres column of the loader (line 33) *)

(** [Series.apply(f)]: [f] on every cell in order; an exception of [f]
    ends the call. *)
Fixpoint series_apply {A B : Type} (f : A -> exc B) (col : list A) : exc (list B) :=
  match col with
  | [] => Ok []
  | x :: rest =>
      y <- f x ;;
      ys <- series_apply f rest ;;
      Ok (y :: ys)
  end.

(** [df['genres'].apply(parse_genres)] *)
Definition genres_list_column (literal_eval : string -> exc pyval)
  (genres : list (option string)) : exc (list (list pyval)) :=
  series_apply (parse_genres literal_eval) genres.

(** ** Predicates of the specification *)

(** The year is present and lies in the inclusive range. *)
Definition year_in_range (c : FilterCriteria) (r : Row) : Prop :=
  exists y, year r = Some y /\ (year_lo c <= y <= year_hi c)%Z.

(** The vote count is present and at least the threshold. *)
Definition enough_votes (c : FilterCriteria) (r : Row) : Prop :=
  exists v, vote_count r = Some v /\ (inject_Z (min_votes c) <= v)%Q.

(** The row and the criteria share a genre name, character for
    character. *)
Definition shares_genre (c : FilterCriteria) (r : Row) : Prop :=
  exists g, In g (genres_list r) /\ In g (genre_filter c).

(** The retention condition of the specification. *)
Definition retained (c : FilterCriteria) (r : Row) : Prop :=
  year_in_range c r /\ enough_votes c r /\
  (genre_filter c <> [] -> shares_genre c r).

(** [weaker c' c]: [c'] is [c] with the year range widened, the vote
    threshold lowered, or the genre set emptied (any of the three, each
    possibly left as it is). *)
Definition weaker (c' c : FilterCriteria) : Prop :=
  (year_lo c' <= year_lo c)%Z /\ (year_hi c <= year_hi c')%Z /\
  (min_votes c' <= min_votes c)%Z /\
  (genre_filter c' = [] \/ genre_filter c' = genre_filter c).

(** [subseq s l]: [s] is [l] with some elements removed, order kept. *)
Inductive subseq {A : Type} : list A -> list A -> Prop :=
| subseq_nil : subseq [] []
| subseq_skip : forall x s l, subseq s l -> subseq s (x :: l)
| subseq_keep : forall x s l, subseq s l -> subseq (x :: s) (x :: l).

(** [desc_by key a b]: [a] may stand before [b] in a table sorted by
    [key], largest first, missing keys last. *)
Definition desc_by {A : Type} (key : A -> option Q) (a b : A) : Prop :=
  ge_desc (key a) (key b) = true.


(** The revenues the rows contribute to the group of genre [g]: a row
    gives its revenue as many times as [g] occurs in its list. *)
Definition genre_revenues (g : string) (df : DataFrame) : list (option Q) :=
  flat_map (fun r => repeat (revenue r) (count_occ string_dec (genres_list r) g)) df.

(** The same with every row that carries [g] giving its revenue once. *)
Definition genre_revenues_once (g : string) (df : DataFrame) : list (option Q) :=
  map revenue (filter (fun r => py_in g (genres_list r)) df).

(** An object: a dict. *)
Definition is_object (d : pyval) : bool :=
  match d with
  | PDict _ => true
  | _ => false
  end.

(** An element on which the comprehension raises: one that refuses the
    [in] test, or one that passes it and is not a dict. *)
Definition faults (d : pyval) : bool :=
  match d with
  | PDict _ => false
  | PList l | PTuple l | PSet l => existsb is_name l
  | PStr s => str_contains "name" s
  | _ => true
  end.

(** The name of an element: the value under ['name'] of a dict that has the
    key; no other element has one. *)
Definition name_of (d : pyval) : option pyval :=
  match d with
  | PDict items => dict_lookup_name items
  | _ => None
  end.

(** The names of the elements that have one, in order. *)
Fixpoint names_kept (l : list pyval) : list pyval :=
  match l with
  | [] => []
  | d :: rest =>
      match name_of d with
      | Some v => v :: names_kept rest
      | None => names_kept rest
      end
  end.

(** An observation with its two values exchanged, and the observation
    of a column paired with itself. *)
Definition swap_pair (p : R * R) : R * R := (snd p, fst p).

Definition diag_pair (x : R) : R * R := (x, x).

(** Both cells of a pair of columns are present in the row. *)
Definition both_present (a b : NumCol) (r : Row) : bool :=
  match num_col a r, num_col b r with
  | Some _, Some _ => true
  | _, _ => false
  end.

(** The entry of the correlation frame at row [i], column [j]. *)
Definition corr_at (df : DataFrame) (i j : nat) : option R :=
  nth j (nth i (corr df) []) None.

(** The whole retention test as one mask. *)
Definition full_mask (c : FilterCriteria) (r : Row) : bool :=
  base_mask c r &&
  match genre_filter c with
  | [] => true
  | _ :: _ => any_genre c (genres_list r)
  end.

(** ** Sample data

    The two-row table of the specification's scenario, and criteria over
    it. *)

Definition row_drama : Row :=
  {| title := "Magnolia"; year := Some 2000%Z;
     budget := Some 37%Q; revenue := Some 48%Q;
     vote_average := Some 7%Q; vote_count := Some 50%Q;
     runtime := Some 188%Q; genres_list := ["Drama"] |}.

Definition row_comedy : Row :=
  {| title := "Wedding Crashers"; year := Some 2005%Z;
     budget := Some 40%Q; revenue := Some 285%Q;
     vote_average := Some 8%Q; vote_count := Some 200%Q;
     runtime := Some 119%Q; genres_list := ["Comedy"] |}.

Definition sample_table : DataFrame := [row_drama; row_comedy].

Definition criteria_2000s : FilterCriteria :=
  {| genre_filter := []; year_lo := 2000; year_hi := 2010; min_votes := 100 |}.

Definition criteria_all_years : FilterCriteria :=
  {| genre_filter := []; year_lo := 1874; year_hi := 2020; min_votes := 0 |}.

(** No row of the sample table is from the 1990s. *)
Definition criteria_drama_1990s : FilterCriteria :=
  {| genre_filter := ["Drama"]; year_lo := 1990; year_hi := 1995; min_votes := 0 |}.

Definition criteria_scifi : FilterCriteria :=
  {| genre_filter := ["SciFi"]; year_lo := 2000; year_hi := 2010; min_votes := 0 |}.

(** A row whose genres text names the same genre twice. *)
Definition row_action_twice : Row :=
  {| title := "Heat"; year := Some 1995%Z;
     budget := Some 60%Q; revenue := Some 10%Q;
     vote_average := Some 8%Q; vote_count := Some 300%Q;
     runtime := Some 170%Q; genres_list := ["Action"; "Action"] |}.

Definition row_action : Row :=
  {| title := "Ronin"; year := Some 1998%Z;
     budget := Some 55%Q; revenue := Some 40%Q;
     vote_average := Some 7%Q; vote_count := Some 150%Q;
     runtime := Some 122%Q; genres_list := ["Action"] |}.

(** A row without revenue (the CSV cell did not parse as a number). *)
Definition row_no_revenue : Row :=
  {| title := "Clerks"; year := Some 1994%Z;
     budget := Some 27%Q; revenue := None;
     vote_average := Some 7%Q; vote_count := Some 120%Q;
     runtime := Some 92%Q; genres_list := ["Drama"] |}.

Definition action_table : DataFrame := [row_action_twice; row_action].

(** What [ast.literal_eval] makes of some texts of the [genres] column;
    a text that is not listed stands for one that does not parse. *)
Definition sample_evaluations : list (string * exc pyval) :=
  [ ("[{'id': 28, 'name': 'Action'}, {'id': 35, 'name': 'Comedy'}]",
     Ok (PList [PDict [(PStr "id", PInt 28); (PStr "name", PStr "Action")];
                PDict [(PStr "id", PInt 35); (PStr "name", PStr "Comedy")]]));
    ("[{'id': 28, 'name': 'Action'}, {'id': 35}]",
     Ok (PList [PDict [(PStr "id", PInt 28); (PStr "name", PStr "Action")];
                PDict [(PStr "id", PInt 35)]]));
    ("[{'name': 'Action'}, 'Drama']",
     Ok (PList [PDict [(PStr "name", PStr "Action")]; PStr "Drama"]));
    ("[{'name': 'Action'}, 5]",
     Ok (PList [PDict [(PStr "name", PStr "Action")]; PInt 5]));
    ("{'name': 'Action'}",
     Ok (PDict [(PStr "name", PStr "Action")]));
    ("not a list", Raised) ].

Fixpoint lookup_text (s : string) (table : list (string * exc pyval)) : exc pyval :=
  match table with
  | [] => Raised
  | (s', o) :: rest => if String.eqb s s' then o else lookup_text s rest
  end.

Definition sample_literal_eval (s : string) : exc pyval :=
  lookup_text s sample_evaluations.

(** A row whose genres text gave no name. *)
Definition row_no_genres : Row :=
  {| title := "Primer"; year := Some 2004%Z;
     budget := Some 1%Q; revenue := Some 4%Q;
     vote_average := Some 7%Q; vote_count := Some 90%Q;
     runtime := Some 77%Q; genres_list := [] |}.

(** The year slider at the two bounds of the sample table. *)
Definition criteria_slider_bounds : FilterCriteria :=
  {| genre_filter := []; year_lo := 2000; year_hi := 2005; min_votes := 100 |}.



(** A row without a rating. *)
Definition row_no_rating : Row :=
  {| title := "Pi"; year := Some 1998%Z;
     budget := Some 1%Q; revenue := Some 3%Q;
     vote_average := None; vote_count := Some 110%Q;
     runtime := Some 84%Q; genres_list := ["Drama"] |}.

(** A store that holds the sample table, as the cached frame, and the
    frame a previous run left behind. *)
Definition sample_store : store :=
  [mkFrame true sample_table; mkFrame true [row_comedy]].

(** * Properties *)

(** ** The row filter *)

Lemma filter_filter_and (A : Type) (p q : A -> bool) (l : list A) :
  filter q (filter p l) = filter (fun x => p x && q x) l.
Proof.
  induction l as [|x l IH]; simpl; [reflexivity|].
  destruct (p x); simpl; [destruct (q x)|]; now rewrite IH.
Qed.

Lemma filtered_df_full_mask (df : DataFrame) (c : FilterCriteria) :
  filtered_df df c = filter (full_mask c) df.
Proof.
  unfold filtered_df, full_mask.
  destruct (genre_filter c) as [|g gs] eqn:E.
  - apply filter_ext. intros r. now rewrite andb_true_r.
  - apply filter_filter_and.
Qed.

Lemma between_spec (v : option Z) (lo hi : Z) :
  between v lo hi = true <-> exists y, v = Some y /\ (lo <= y <= hi)%Z.
Proof.
  unfold between. destruct v as [y|].
  - rewrite andb_true_iff, !Z.leb_le. split.
    + intros H. exists y. auto.
    + intros (y' & Hy & H). now inversion Hy; subst.
  - split; [discriminate|]. intros (y & Hy & _). discriminate.
Qed.

Lemma ge_votes_spec (v : option Q) (n : Z) :
  ge_votes v n = true <-> exists q, v = Some q /\ (inject_Z n <= q)%Q.
Proof.
  unfold ge_votes. destruct v as [q|].
  - rewrite Qle_bool_iff. split.
    + intros H. exists q. auto.
    + intros (q' & Hq & H). now inversion Hq; subst.
  - split; [discriminate|]. intros (q & Hq & _). discriminate.
Qed.

Lemma py_in_spec (g : string) (x : list string) :
  py_in g x = true <-> In g x.
Proof.
  unfold py_in. rewrite existsb_exists. split.
  - intros (g' & Hin & Heq). apply String.eqb_eq in Heq. now subst.
  - intros Hin. exists g. split; [assumption|apply String.eqb_refl].
Qed.

Lemma any_genre_spec (c : FilterCriteria) (r : Row) :
  any_genre c (genres_list r) = true <-> shares_genre c r.
Proof.
  unfold any_genre, shares_genre. rewrite existsb_exists. split.
  - intros (g & Hin & Hg). apply py_in_spec in Hg. exists g. auto.
  - intros (g & Hr & Hc). exists g. split; [assumption|]. now apply py_in_spec.
Qed.

Lemma full_mask_spec (c : FilterCriteria) (r : Row) :
  full_mask c r = true <-> retained c r.
Proof.
  unfold full_mask, base_mask, retained, year_in_range, enough_votes.
  rewrite !andb_true_iff, between_spec, ge_votes_spec.
  destruct (genre_filter c) as [|g gs] eqn:E.
  - split.
    + intros [[Hy Hv] _]. repeat split; try assumption. intros H. now elim H.
    + intros (Hy & Hv & _). auto.
  - rewrite <- E. rewrite any_genre_spec. split.
    + intros [[Hy Hv] Hg]. auto.
    + intros (Hy & Hv & Hg). repeat split; try assumption.
      apply Hg. rewrite E. discriminate.
Qed.

(** C1. A row is in the filtered set exactly when it is a row of the table
    whose year is present and inside the inclusive range, whose vote count
    is present and at least [min_votes], and which, under a non-empty genre
    selection, carries one of the selected names (compared character for
    character).  The filtered set is the table filtered by a test that
    decides this condition, so order and repetitions are those of the
    table. *)
Theorem C1_filtered_iff_retained (df : DataFrame) (c : FilterCriteria) :
  (forall r, In r (filtered_df df c) <-> In r df /\ retained c r) /\
  (exists p : Row -> bool,
      (forall r, p r = true <-> retained c r) /\
      filtered_df df c = filter p df).
Proof.
  split.
  - intros r. rewrite filtered_df_full_mask, filter_In, full_mask_spec. tauto.
  - exists (full_mask c). split.
    + intros r. apply full_mask_spec.
    + apply filtered_df_full_mask.
Qed.

(** ** Subset and monotonicity *)

Lemma subseq_refl (A : Type) (l : list A) : subseq l l.
Proof. induction l; constructor; assumption. Qed.

Lemma subseq_length (A : Type) (s l : list A) :
  subseq s l -> List.length s <= List.length l.
Proof. induction 1; simpl; lia. Qed.

Lemma subseq_incl (A : Type) (s l : list A) : subseq s l -> incl s l.
Proof.
  induction 1 as [|x s l _ IH|x s l _ IH]; intros a Ha.
  - assumption.
  - right. now apply IH.
  - destruct Ha as [->|Ha]; [now left|right; now apply IH].
Qed.

Lemma subseq_filter (A : Type) (p : A -> bool) (l : list A) :
  subseq (filter p l) l.
Proof.
  induction l as [|x l IH]; simpl; [constructor|].
  destruct (p x); constructor; assumption.
Qed.

Lemma subseq_filter_impl (A : Type) (p q : A -> bool) (l : list A) :
  (forall x, p x = true -> q x = true) ->
  subseq (filter p l) (filter q l).
Proof.
  intros Himp. induction l as [|x l IH]; simpl; [constructor|].
  destruct (p x) eqn:Hp.
  - rewrite (Himp x Hp). now constructor.
  - destruct (q x); [constructor|]; assumption.
Qed.

Lemma retained_weaker (c' c : FilterCriteria) (r : Row) :
  weaker c' c -> retained c r -> retained c' r.
Proof.
  intros (Hlo & Hhi & Hv & Hg) ((y & Hy & Hr) & (v & Hq & Hm) & Hs).
  split; [|split].
  - exists y. split; [assumption|lia].
  - exists v. split; [assumption|].
    apply Qle_trans with (inject_Z (min_votes c)); [|assumption].
    now rewrite <- Zle_Qle.
  - intros Hne. destruct Hg as [Hg|Hg]; [contradiction|].
    unfold shares_genre in *. rewrite Hg in *. auto.
Qed.

(** C6. The filtered set is the table with rows removed, so each of its
    rows is a row of the table; and under criteria weakened in the year
    range, the vote threshold or the genre set, the filtered set of the
    stronger criteria is contained in that of the weaker ones and is no
    longer than it. *)
Theorem C6_subset_and_monotone (df : DataFrame) (c : FilterCriteria) :
  subseq (filtered_df df c) df /\
  incl (filtered_df df c) df /\
  forall c', weaker c' c ->
    subseq (filtered_df df c) (filtered_df df c') /\
    List.length (filtered_df df c) <= List.length (filtered_df df c').
Proof.
  assert (Hsub : subseq (filtered_df df c) df).
  { rewrite filtered_df_full_mask. apply subseq_filter. }
  split; [exact Hsub|]. split; [now apply subseq_incl|].
  intros c' Hw.
  assert (Hmono : subseq (filtered_df df c) (filtered_df df c')).
  { rewrite !filtered_df_full_mask. apply subseq_filter_impl.
    intros r Hr. apply full_mask_spec. apply retained_weaker with c; [assumption|].
    now apply full_mask_spec. }
  split; [exact Hmono|now apply subseq_length].
Qed.

Lemma C6_witness :
  weaker criteria_all_years criteria_2000s /\
  filtered_df sample_table criteria_2000s = [row_comedy] /\
  filtered_df sample_table criteria_all_years = [row_drama; row_comedy] /\
  subseq (filtered_df sample_table criteria_2000s)
         (filtered_df sample_table criteria_all_years) /\
  List.length (filtered_df sample_table criteria_2000s)
  <= List.length (filtered_df sample_table criteria_all_years).
Proof.
  assert (Hw : weaker criteria_all_years criteria_2000s).
  { unfold weaker; simpl. repeat split; try lia. now left. }
  destruct (C6_subset_and_monotone sample_table criteria_2000s) as (_ & _ & Hmono).
  split; [exact Hw|]. split; [reflexivity|]. split; [reflexivity|].
  exact (Hmono criteria_all_years Hw).
Defined.

(** ** Group keys *)

Section GroupKeysFacts.

Variable K : Type.
Variable cmp : K -> K -> comparison.
Variable eqb : K -> K -> bool.

Hypothesis cmp_eq : forall a b, cmp a b = Eq <-> a = b.
Hypothesis cmp_antisym : forall a b, cmp a b = CompOpp (cmp b a).
Hypothesis cmp_trans : forall a b c, cmp a b = Lt -> cmp b c = Lt -> cmp a c = Lt.
Hypothesis eqb_eq : forall a b, eqb a b = true <-> a = b.

Lemma In_insert_key (x k : K) (ks : list K) :
  In x (insert_key cmp k ks) <-> x = k \/ In x ks.
Proof.
  induction ks as [|k' ks IH]; simpl.
  - intuition.
  - destruct (cmp k k') eqn:E; simpl.
    + apply cmp_eq in E. subst. intuition.
    + intuition.
    + rewrite IH. intuition.
Qed.

Lemma In_group_keys (k : K) (ks : list (option K)) :
  In k (group_keys cmp ks) <-> In (Some k) ks.
Proof.
  induction ks as [|[k'|] ks IH]; simpl.
  - tauto.
  - rewrite In_insert_key, IH. split.
    + intros [->|H]; auto.
    + intros [H|H]; [inversion H|]; auto.
  - rewrite IH. split; [auto|]. intros [H|H]; [discriminate|assumption].
Qed.

Lemma insert_key_sorted (k : K) (ks : list K) :
  StronglySorted (key_lt cmp) ks -> StronglySorted (key_lt cmp) (insert_key cmp k ks).
Proof.
  induction 1 as [|k' ks Hs IH Hall]; simpl.
  - repeat constructor.
  - destruct (cmp k k') eqn:E.
    + now constructor.
    + constructor; [now constructor|].
      constructor; [exact E|].
      rewrite Forall_forall in *. intros x Hx.
      apply cmp_trans with k'; [exact E|now apply Hall].
    + constructor; [assumption|].
      rewrite Forall_forall in *. intros x Hx.
      apply In_insert_key in Hx. destruct Hx as [->|Hx]; [|now apply Hall].
      unfold key_lt. rewrite cmp_antisym, E. reflexivity.
Qed.

Lemma group_keys_sorted (ks : list (option K)) :
  StronglySorted (key_lt cmp) (group_keys cmp ks).
Proof.
  induction ks as [|[k|] ks IH]; simpl.
  - constructor.
  - now apply insert_key_sorted.
  - assumption.
Qed.

Lemma key_lt_irrefl (a : K) : ~ (key_lt cmp) a a.
Proof.
  unfold key_lt. intros H.
  assert (E : cmp a a = Eq) by now apply cmp_eq.
  congruence.
Qed.

Lemma sorted_NoDup (ks : list K) : StronglySorted (key_lt cmp) ks -> NoDup ks.
Proof.
  induction 1 as [|k ks Hs IH Hall]; constructor; [|assumption].
  intros Hin. rewrite Forall_forall in Hall.
  exact (key_lt_irrefl (Hall k Hin)).
Qed.

Lemma group_keys_NoDup (ks : list (option K)) : NoDup (group_keys cmp ks).
Proof. apply sorted_NoDup, group_keys_sorted. Qed.

(** *** Group sizes add up to the rows that have a key *)

Variable A : Type.
Variable kf : A -> option K.

Lemma list_sum_map_add (f g : K -> nat) (ks : list K) :
  list_sum (map (fun k => f k + g k) ks) =
  list_sum (map f ks) + list_sum (map g ks).
Proof. induction ks as [|k ks IH]; simpl; [reflexivity|]. rewrite IH. lia. Qed.

Lemma list_sum_map_zero (ks : list K) (f : K -> nat) :
  (forall k, In k ks -> f k = 0) -> list_sum (map f ks) = 0.
Proof.
  induction ks as [|k ks IH]; simpl; intros H; [reflexivity|].
  rewrite (H k), IH; auto.
Qed.

Lemma list_sum_map_ext (f g : K -> nat) (ks : list K) :
  (forall k, f k = g k) -> list_sum (map f ks) = list_sum (map g ks).
Proof. intros H. f_equal. apply map_ext. exact H. Qed.

Lemma list_sum_indicator (k0 : K) (ks : list K) :
  NoDup ks -> In k0 ks ->
  list_sum (map (fun k => if eqb k k0 then 1 else 0) ks) = 1.
Proof.
  induction 1 as [|k ks Hnin Hnd IH]; simpl; intros Hin; [contradiction|].
  destruct Hin as [->|Hin].
  - assert (E : eqb k0 k0 = true) by now apply eqb_eq.
    rewrite E. rewrite list_sum_map_zero; [reflexivity|].
    intros k Hk. destruct (eqb k k0) eqn:E'; [|reflexivity].
    apply eqb_eq in E'. subst. contradiction.
  - destruct (eqb k k0) eqn:E.
    + apply eqb_eq in E. subst. contradiction.
    + now rewrite IH.
Qed.

Lemma group_sizes_cover (keys : list K) (l : list A) :
  NoDup keys ->
  (forall a k, In a l -> kf a = Some k -> In k keys) ->
  list_sum (map (fun k => List.length (group_of eqb kf k l)) keys) =
  List.length (filter (has_key kf) l).
Proof.
  intros Hnd. induction l as [|a l IH]; intros Hcov.
  - simpl. apply list_sum_map_zero. reflexivity.
  - assert (Hl : forall a' k, In a' l -> kf a' = Some k -> In k keys).
    { intros a' k Ha'. apply Hcov. now right. }
    specialize (IH Hl).
    transitivity
      (list_sum (map (fun k => (if opt_eqb eqb k (kf a) then 1 else 0)
                               + List.length (group_of eqb kf k l)) keys)).
    { f_equal. apply map_ext. intros k. unfold group_of. simpl.
      destruct (opt_eqb eqb k (kf a)); reflexivity. }
    rewrite list_sum_map_add, IH. cbn [filter].
    assert (Hk : has_key kf a = match kf a with Some _ => true | None => false end)
      by reflexivity.
    rewrite Hk. destruct (kf a) as [k0|] eqn:E.
    + rewrite (list_sum_map_ext _ (fun k => if eqb k k0 then 1 else 0)).
      * rewrite list_sum_indicator; [reflexivity|assumption|].
        apply Hcov with a; [now left|assumption].
      * intros k. reflexivity.
    + rewrite list_sum_map_zero; reflexivity.
Qed.

Lemma group_sizes_sum (l : list A) :
  list_sum (map (fun k => List.length (group_of eqb kf k l))
                (group_keys cmp (map kf l))) =
  List.length (filter (has_key kf) l).
Proof.
  apply group_sizes_cover.
  - apply group_keys_NoDup.
  - intros a k Ha Hk. apply In_group_keys. rewrite <- Hk. now apply in_map.
Qed.

End GroupKeysFacts.

(** ** Grouping by year *)

Lemma Zcompare_trans (a b c : Z) :
  (a ?= b)%Z = Lt -> (b ?= c)%Z = Lt -> (a ?= c)%Z = Lt.
Proof. rewrite !Z.compare_lt_iff. lia. Qed.

Lemma Zcompare_antisym (a b : Z) : (a ?= b)%Z = CompOpp (b ?= a)%Z.
Proof. apply Z.compare_antisym. Qed.

Lemma filtered_year_present (df : DataFrame) (c : FilterCriteria) (r : Row) :
  In r (filtered_df df c) -> exists y, year r = Some y.
Proof.
  rewrite filtered_df_full_mask, filter_In, full_mask_spec.
  intros (_ & (y & Hy & _) & _). now exists y.
Qed.

Lemma filter_all_true (A : Type) (p : A -> bool) (l : list A) :
  (forall a, In a l -> p a = true) -> filter p l = l.
Proof.
  induction l as [|a l IH]; simpl; intros H; [reflexivity|].
  rewrite (H a) by now left. f_equal. apply IH. intros a' Ha'. apply H. now right.
Qed.

Lemma year_keys_spec (df : DataFrame) (y : Z) :
  In y (group_keys Z.compare (map year df)) <-> exists r, In r df /\ year r = Some y.
Proof.
  rewrite (In_group_keys Z.compare Z.compare_eq_iff).
  rewrite in_map_iff. split; intros (r & H1 & H2); exists r; auto.
Qed.

Lemma movies_per_year_total (df : DataFrame) :
  list_sum (map snd (movies_per_year df)) =
  List.length (filter (has_key year) df).
Proof.
  unfold movies_per_year. rewrite map_map. simpl.
  apply (group_sizes_sum Z.compare Z.eqb Z.compare_eq_iff Zcompare_antisym
           Zcompare_trans Z.eqb_eq).
Qed.

(** C10. Every row of the filtered set has a year, so grouping by year
    loses no row: the counts of [movies_per_year] add up to the number of
    filtered rows, and the year of every filtered row is a key of
    [movies_per_year] and of [avg_rating_per_year], whose group holds the
    row. *)
Theorem C10_year_groups_cover (df : DataFrame) (c : FilterCriteria) :
  (forall r, In r (filtered_df df c) -> exists y, year r = Some y) /\
  list_sum (map snd (movies_per_year (filtered_df df c))) =
    List.length (filtered_df df c) /\
  (forall r, In r (filtered_df df c) ->
     exists y, year r = Some y /\
       In r (year_group y (filtered_df df c)) /\
       In y (map fst (movies_per_year (filtered_df df c))) /\
       In y (map fst (avg_rating_per_year (filtered_df df c)))).
Proof.
  split; [|split].
  - intros r. apply filtered_year_present.
  - rewrite movies_per_year_total. f_equal. apply filter_all_true.
    intros r Hr. apply filtered_year_present in Hr. destruct Hr as (y & Hy).
    unfold has_key. now rewrite Hy.
  - intros r Hr. destruct (filtered_year_present _ _ _ Hr) as (y & Hy).
    exists y. split; [assumption|].
    assert (Hk : In y (group_keys Z.compare (map year (filtered_df df c)))).
    { apply year_keys_spec. exists r. auto. }
    split; [|split].
    + unfold year_group. apply filter_In. split; [assumption|].
      rewrite Hy. simpl. apply Z.eqb_refl.
    + unfold movies_per_year. rewrite map_map. simpl. now rewrite map_id.
    + unfold avg_rating_per_year. rewrite map_map. simpl. now rewrite map_id.
Qed.

(** ** Empty filtered set *)

(** The aggregates of a frame without rows (one that still has its
    columns): count 0, missing means, revenue total 0, empty tables and a
    correlation matrix of missing entries. *)
Lemma aggregates_of_empty (tb : TieBreak) :
  r_movies_count (aggregates tb []) = 0 /\
  r_average_rating (aggregates tb []) = None /\
  r_total_revenue (aggregates tb []) = 0%Q /\
  r_average_runtime (aggregates tb []) = None /\
  r_top_revenue (aggregates tb []) = [] /\
  r_top_rated (aggregates tb []) = [] /\
  r_revenue_by_genre (aggregates tb []) = [] /\
  r_movies_per_year (aggregates tb []) = [] /\
  r_avg_rating_per_year (aggregates tb []) = [] /\
  r_corr (aggregates tb []) = repeat (repeat None 5) 5.
Proof. repeat split; reflexivity. Qed.

(** ** The script on the store *)

Lemma nth_error_snoc (A : Type) (h : list A) (x : A) :
  nth_error (h ++ [x]) (List.length h) = Some x.
Proof. rewrite nth_error_app2 by lia. now rewrite Nat.sub_diag. Qed.

Lemma nth_error_extend (A : Type) (h ext : list A) (l : nat) (x : A) :
  nth_error h l = Some x -> nth_error (h ++ ext) l = Some x.
Proof.
  intros H. rewrite nth_error_app1; [assumption|].
  apply nth_error_Some. congruence.
Qed.

Lemma run_filter_spec (df : ref) (c : FilterCriteria) (h : store) (f : Frame) :
  nth_error h df = Some f -> has_columns f = true ->
  exists ext,
    run_filter df c h = (Ok (List.length (h ++ ext) - 1), h ++ ext) /\
    nth_error (h ++ ext) (List.length (h ++ ext) - 1) =
      Some (mkFrame (keeps_columns (rows f) c) (filtered_df (rows f) c)).
Proof.
  intros Hdf Hcols.
  unfold run_filter, sc_bind, deref, columns_of, alloc, sc_ret.
  rewrite Hdf, Hcols. cbn [fst snd].
  unfold keeps_columns, filtered_df.
  destruct (genre_filter c) as [|g gs] eqn:Eg.
  - exists [getitem_mask (rows f) (base_mask c)].
    rewrite length_app. simpl List.length.
    replace (List.length h + 1 - 1) with (List.length h) by lia.
    split; [reflexivity|]. apply nth_error_snoc.
  - rewrite nth_error_snoc. cbn [has_columns getitem_mask rows].
    set (t1 := filter (base_mask c) (rows f)).
    set (test := fun r : Row => any_genre c (genres_list r)).
    exists [getitem_mask (rows f) (base_mask c); getitem_apply t1 test].
    replace (h ++ [getitem_mask (rows f) (base_mask c); getitem_apply t1 test])
      with ((h ++ [getitem_mask (rows f) (base_mask c)]) ++ [getitem_apply t1 test])
      by (rewrite <- app_assoc; reflexivity).
    split.
    + f_equal. f_equal. rewrite !length_app. simpl. lia.
    + replace (List.length ((h ++ [getitem_mask (rows f) (base_mask c)])
                              ++ [getitem_apply t1 test]) - 1)
        with (List.length (h ++ [getitem_mask (rows f) (base_mask c)]))
        by (rewrite !length_app; simpl; lia).
      rewrite nth_error_snoc. f_equal.
      unfold getitem_apply. fold t1. destruct t1; reflexivity.
Qed.

Lemma run_script_spec
  (tb : TieBreak) (df : ref) (c : FilterCriteria) (h : store) (f : Frame) :
  nth_error h df = Some f -> has_columns f = true ->
  exists ext,
    run_script tb df c h =
      ((if keeps_columns (rows f) c && charts_ok (filtered_df (rows f) c)
        then Ok (apply_criteria tb (rows f) c) else Raised),
       h ++ ext).
Proof.
  intros Hdf Hcols.
  destruct (run_filter_spec df c h Hdf Hcols) as (ext & Hrun & Hnth).
  exists ext. unfold run_script, sc_bind. rewrite Hrun.
  unfold deref. rewrite Hnth. unfold columns_of. cbn [has_columns rows].
  destruct (keeps_columns (rows f) c); [|reflexivity].
  unfold sc_ret, px_scatter_sized, charts_ok, sc_raise. cbn [andb].
  destruct (forallb marker_size_ok (map vote_count (filtered_df (rows f) c)));
    [|reflexivity].
  destruct (forallb marker_size_ok (map vote_average (filtered_df (rows f) c)));
    reflexivity.
Qed.

(** When a genre is selected and no row passes the mask of lines 47-48,
    the frame bound to [filtered_df] has no columns and line 58 raises. *)
Lemma run_script_raises
  (tb : TieBreak) (df : ref) (c : FilterCriteria) (h : store) (f : Frame) :
  nth_error h df = Some f -> has_columns f = true ->
  genre_filter c <> [] -> filter (base_mask c) (rows f) = [] ->
  fst (run_script tb df c h) = Raised.
Proof.
  intros Hdf Hcols Hg Hb.
  destruct (run_script_spec tb df c h Hdf Hcols) as (ext & ->).
  unfold keeps_columns. rewrite Hb.
  destruct (genre_filter c); [contradiction|reflexivity].
Qed.

(** When the frame keeps its columns and the scatter plots accept the
    filtered rows, the script returns the aggregates of the filtered set. *)
Lemma run_script_returns
  (tb : TieBreak) (df : ref) (c : FilterCriteria) (h : store) (f : Frame) :
  nth_error h df = Some f -> has_columns f = true ->
  genre_filter c = [] \/ filter (base_mask c) (rows f) <> [] ->
  charts_ok (filtered_df (rows f) c) = true ->
  fst (run_script tb df c h) = Ok (apply_criteria tb (rows f) c).
Proof.
  intros Hdf Hcols Hc Hcharts.
  destruct (run_script_spec tb df c h Hdf Hcols) as (ext & ->).
  rewrite Hcharts, andb_true_r. unfold keeps_columns.
  destruct (genre_filter c) as [|g gs]; [reflexivity|].
  destruct Hc as [Hc|Hc]; [discriminate|].
  destruct (filter (base_mask c) (rows f)); [contradiction|reflexivity].
Qed.

(** C4. On the sample table, with the genre "Drama" selected and the year
    range 1990-1995, the filtered set is empty (no row is in the range) and
    the script raises instead of reporting the count 0, the missing means
    and the empty tables. *)
Theorem C4_script_raises_on_empty_mask (tb : TieBreak) :
  filtered_df sample_table criteria_drama_1990s = [] /\
  fst (run_script tb 0 criteria_drama_1990s [mkFrame true sample_table]) = Raised.
Proof. split; reflexivity. Qed.

(** C8. A run of the script leaves every frame of the store as it was, the
    base table among them, and its outcome is determined by the rows of the
    base table and the criteria: a run from any other store whose base
    frame has the same rows has the same outcome. *)
Theorem C8_script_pure_deterministic
  (tb : TieBreak) (df : ref) (c : FilterCriteria) (h : store) (f : Frame) :
  nth_error h df = Some f -> has_columns f = true ->
  (forall l fr, nth_error h l = Some fr ->
                nth_error (snd (run_script tb df c h)) l = Some fr) /\
  (forall df2 h2 f2,
      nth_error h2 df2 = Some f2 -> has_columns f2 = true ->
      rows f2 = rows f ->
      fst (run_script tb df2 c h2) = fst (run_script tb df c h)) /\
  (forall res, fst (run_script tb df c h) = Ok res ->
               res = apply_criteria tb (rows f) c).
Proof.
  intros Hdf Hcols.
  destruct (run_script_spec tb df c h Hdf Hcols) as (ext & Hrun).
  split; [|split].
  - intros l fr Hl. rewrite Hrun. cbn [snd]. now apply nth_error_extend.
  - intros df2 h2 f2 Hdf2 Hcols2 Hrows.
    destruct (run_script_spec tb df2 c h2 Hdf2 Hcols2) as (ext2 & Hrun2).
    rewrite Hrun, Hrun2, Hrows. reflexivity.
  - intros res. rewrite Hrun. cbn [fst].
    destruct (keeps_columns (rows f) c && charts_ok (filtered_df (rows f) c));
      [|discriminate].
    intros H. now inversion H.
Qed.

Lemma C8_witness :
  nth_error sample_store 0 = Some (mkFrame true sample_table) /\
  has_columns (mkFrame true sample_table) = true /\
  (forall l fr, nth_error sample_store l = Some fr ->
                nth_error (snd (run_script first_come 0 criteria_2000s sample_store)) l =
                Some fr) /\
  (forall df2 h2 f2,
      nth_error h2 df2 = Some f2 -> has_columns f2 = true ->
      rows f2 = rows (mkFrame true sample_table) ->
      fst (run_script first_come df2 criteria_2000s h2) =
      fst (run_script first_come 0 criteria_2000s sample_store)) /\
  (forall res, fst (run_script first_come 0 criteria_2000s sample_store) = Ok res ->
               res = apply_criteria first_come (rows (mkFrame true sample_table))
                       criteria_2000s).
Proof.
  split; [reflexivity|]. split; [reflexivity|].
  apply (@C8_script_pure_deterministic first_come 0 criteria_2000s sample_store
           (mkFrame true sample_table)); reflexivity.
Defined.

(** ** Sorting, largest first *)

Lemma ge_desc_total (a b : option Q) : ge_desc a b = false -> ge_desc b a = true.
Proof.
  destruct a as [x|], b as [y|]; simpl; try congruence.
  intros H. apply Qle_bool_iff. apply Qlt_le_weak. apply Qnot_le_lt.
  intros Hle. apply Qle_bool_iff in Hle. congruence.
Qed.

Lemma ge_desc_trans (a b c : option Q) :
  ge_desc a b = true -> ge_desc b c = true -> ge_desc a c = true.
Proof.
  destruct a as [x|], b as [y|], c as [z|]; simpl; try congruence.
  rewrite !Qle_bool_iff. intros H1 H2. now apply Qle_trans with y.
Qed.

Lemma key_eqb_ge_desc_l (a b : option Q) :
  key_eqb a b = true -> ge_desc a b = true.
Proof.
  destruct a as [x|], b as [y|]; simpl; try congruence.
  rewrite Qeq_bool_iff, Qle_bool_iff. intros ->. apply Qle_refl.
Qed.

Lemma key_eqb_ge_desc_r (a b : option Q) :
  key_eqb a b = true -> ge_desc b a = true.
Proof.
  destruct a as [x|], b as [y|]; simpl; try congruence.
  rewrite Qeq_bool_iff, Qle_bool_iff. intros ->. apply Qle_refl.
Qed.

Lemma sorted_map (A B : Type) (f : A -> B) (R : B -> B -> Prop) (l : list A) :
  StronglySorted (fun x y => R (f x) (f y)) l -> StronglySorted R (map f l).
Proof.
  induction 1 as [|x l Hs IH Hall]; simpl; constructor; [assumption|].
  rewrite Forall_forall in *. intros y Hy. apply in_map_iff in Hy.
  destruct Hy as (z & <- & Hz). now apply Hall.
Qed.

Lemma map_snd_combine_seq (A : Type) (l : list A) (start : nat) :
  map snd (combine (seq start (List.length l)) l) = l.
Proof.
  revert start. induction l as [|x l IH]; intros start; [reflexivity|].
  simpl. now rewrite IH.
Qed.

Lemma map_snd_enumerate (A : Type) (l : list A) : map snd (enumerate l) = l.
Proof. apply map_snd_combine_seq. Qed.

Section SortDescFacts.

Variable A : Type.
Variable key : A -> option Q.
Variable tb : TieBreak.

Lemma goes_before_true (ks : list (option Q)) (x y : nat * A) :
  goes_before key tb ks x y = true -> desc_by key (snd x) (snd y).
Proof.
  unfold goes_before, desc_by.
  destruct (key_eqb (key (snd x)) (key (snd y))) eqn:E; [|tauto].
  intros _. now apply key_eqb_ge_desc_l.
Qed.

Lemma goes_before_false (ks : list (option Q)) (x y : nat * A) :
  goes_before key tb ks x y = false -> desc_by key (snd y) (snd x).
Proof.
  unfold goes_before, desc_by.
  destruct (key_eqb (key (snd x)) (key (snd y))) eqn:E.
  - intros _. now apply key_eqb_ge_desc_r.
  - apply ge_desc_total.
Qed.

Lemma insert_desc_perm (ks : list (option Q)) (x : nat * A) (l : list (nat * A)) :
  Permutation (insert_desc key tb ks x l) (x :: l).
Proof.
  induction l as [|y l IH]; simpl; [reflexivity|].
  destruct (goes_before key tb ks x y); [reflexivity|].
  rewrite IH. apply perm_swap.
Qed.

Lemma insert_desc_sorted (ks : list (option Q)) (x : nat * A) (l : list (nat * A)) :
  StronglySorted (fun a b => desc_by key (snd a) (snd b)) l ->
  StronglySorted (fun a b => desc_by key (snd a) (snd b)) (insert_desc key tb ks x l).
Proof.
  induction 1 as [|y l Hs IH Hall]; simpl.
  - repeat constructor.
  - destruct (goes_before key tb ks x y) eqn:E.
    + apply goes_before_true in E.
      constructor; [now constructor|].
      constructor; [exact E|].
      rewrite Forall_forall in *. intros z Hz.
      unfold desc_by in *.
      apply ge_desc_trans with (key (snd y)); [exact E|now apply Hall].
    + apply goes_before_false in E.
      constructor; [assumption|].
      rewrite Forall_forall in *. intros z Hz.
      apply (Permutation_in _ (insert_desc_perm ks x l)) in Hz.
      destruct Hz as [<-|Hz]; [exact E|now apply Hall].
Qed.

Lemma sort_desc_perm (l : list A) : Permutation (sort_desc key tb l) l.
Proof.
  unfold sort_desc.
  apply Permutation_trans with (map snd (enumerate l));
    [|rewrite map_snd_enumerate; reflexivity].
  apply Permutation_map. generalize (map key l) as ks.
  induction (enumerate l) as [|x el IH]; intros ks; simpl; [reflexivity|].
  rewrite insert_desc_perm. constructor. apply IH.
Qed.

Lemma sort_desc_length (l : list A) :
  List.length (sort_desc key tb l) = List.length l.
Proof. apply Permutation_length, sort_desc_perm. Qed.

Lemma sort_desc_sorted (l : list A) :
  StronglySorted (desc_by key) (sort_desc key tb l).
Proof.
  unfold sort_desc. apply sorted_map. generalize (map key l) as ks.
  induction (enumerate l) as [|x el IH]; intros ks; simpl; [constructor|].
  apply insert_desc_sorted. apply IH.
Qed.

End SortDescFacts.






(** ** Mean revenue by genre *)

Lemma Scompare_trans (a b c : string) :
  String.compare a b = Lt -> String.compare b c = Lt -> String.compare a c = Lt.
Proof.
  intros H1 H2. apply String_as_OT.cmp_lt.
  apply String_as_OT.lt_trans with b; now apply String_as_OT.cmp_lt.
Qed.

Lemma explode_keys (df : DataFrame) (g : string) :
  In (Some g) (map fst (explode df)) <-> exists r, In r df /\ In g (genres_list r).
Proof.
  unfold explode. rewrite in_map_iff. split.
  - intros ((k & r') & Hk & Hin). simpl in Hk. subst k.
    apply in_flat_map in Hin. destruct Hin as (r & Hr & Hin). exists r.
    split; [assumption|].
    destruct (genres_list r) as [|g0 gs] eqn:E.
    + destruct Hin as [H|[]]. discriminate.
    + apply in_map_iff in Hin. destruct Hin as (g' & Hg' & Hin).
      inversion Hg'; subst. assumption.
  - intros (r & Hr & Hg). exists (Some g, r). split; [reflexivity|].
    apply in_flat_map. exists r. split; [assumption|].
    destruct (genres_list r) as [|g0 gs] eqn:E; [contradiction|].
    apply in_map_iff. exists g. auto.
Qed.

Lemma genre_group_row (g : string) (r : Row) (gs : list string) :
  map (fun p => revenue (snd p))
      (filter (fun p => opt_eqb String.eqb g (fst p)) (map (fun g' => (Some g', r)) gs)) =
  repeat (revenue r) (count_occ string_dec gs g).
Proof.
  induction gs as [|g' gs IH]; [reflexivity|].
  cbn [map filter fst opt_eqb count_occ].
  destruct (string_dec g' g) as [->|Hne].
  - rewrite String.eqb_refl. cbn [map snd repeat]. now rewrite IH.
  - destruct (String.eqb g g') eqn:E.
    + apply String.eqb_eq in E. congruence.
    + exact IH.
Qed.

Lemma genre_group_revenues (g : string) (df : DataFrame) :
  map (fun p => revenue (snd p)) (genre_group g (explode df)) = genre_revenues g df.
Proof.
  unfold genre_group, genre_revenues, explode.
  induction df as [|r df IH]; [reflexivity|].
  cbn [flat_map]. rewrite filter_app, map_app, IH. f_equal.
  destruct (genres_list r) as [|g0 gs] eqn:E; [reflexivity|].
  apply genre_group_row.
Qed.

Lemma mean_revenue_groups_spec (df : DataFrame) (g : string) (m : option Q) :
  In (g, m) (mean_revenue_groups df) <->
  (exists r, In r df /\ In g (genres_list r)) /\
  m = series_mean (genre_revenues g df).
Proof.
  unfold mean_revenue_groups. cbv zeta. rewrite in_map_iff.
  rewrite <- explode_keys, <- (In_group_keys String.compare String_as_OT.cmp_eq).
  split.
  - intros (g' & Heq & Hin). inversion Heq; subst.
    split; [assumption|]. now rewrite genre_group_revenues.
  - intros (Hin & ->). exists g. split; [|assumption].
    now rewrite genre_group_revenues.
Qed.

Lemma mean_revenue_groups_keys (df : DataFrame) :
  map fst (mean_revenue_groups df) =
  group_keys String.compare (map fst (explode df)).
Proof.
  unfold mean_revenue_groups. cbv zeta. rewrite map_map. simpl. apply map_id.
Qed.

Lemma series_mean_none (s : list (option Q)) :
  series_mean s = None <-> dropna s = [].
Proof.
  unfold series_mean. destruct (dropna s); split; congruence.
Qed.

Lemma avg_rating_per_year_spec (df : DataFrame) (y : Z) (m : option Q) :
  In (y, m) (avg_rating_per_year df) <->
  (exists r, In r df /\ year r = Some y) /\
  m = series_mean (map vote_average (year_group y df)).
Proof.
  unfold avg_rating_per_year. rewrite in_map_iff, <- year_keys_spec.
  split.
  - intros (y' & Heq & Hin). inversion Heq; subst. auto.
  - intros (Hin & ->). exists y. auto.
Qed.

Lemma revenue_by_genre_In (tb : TieBreak) (df : DataFrame) (p : string * option Q) :
  In p (revenue_by_genre tb df) <-> In p (mean_revenue_groups df).
Proof.
  unfold revenue_by_genre. split; apply Permutation_in.
  - apply sort_desc_perm.
  - symmetry. apply sort_desc_perm.
Qed.

(** C3, as the code has it.  The revenues of the group of a genre are the
    revenues of the rows, each as many times as the genre occurs in the
    row's list (once when it occurs once, in every group of a row with
    several genres).  The table has one line per genre that some row
    carries, and no other line; its mean is the mean of the group's present
    revenues, missing when there is none; the lines are in descending order
    of the mean.  The mean rating by year likewise has a line for every
    year of a row, with a missing mean when the group has no rating. *)
Theorem C3_revenue_by_genre (tb : TieBreak) (fdf : DataFrame) :
  (forall g, map (fun p => revenue (snd p)) (genre_group g (explode fdf)) =
             genre_revenues g fdf) /\
  (forall r g, genre_revenues g [r] =
               repeat (revenue r) (count_occ string_dec (genres_list r) g)) /\
  (forall g m, In (g, m) (revenue_by_genre tb fdf) <->
               (exists r, In r fdf /\ In g (genres_list r)) /\
               m = series_mean (genre_revenues g fdf)) /\
  StronglySorted (desc_by snd) (revenue_by_genre tb fdf) /\
  NoDup (map fst (revenue_by_genre tb fdf)) /\
  (forall y m, In (y, m) (avg_rating_per_year fdf) <->
               (exists r, In r fdf /\ year r = Some y) /\
               m = series_mean (map vote_average (year_group y fdf))) /\
  (forall s, series_mean s = None <-> dropna s = []).
Proof.
  split; [intros g; apply genre_group_revenues|].
  split.
  { intros r g. unfold genre_revenues. simpl. apply app_nil_r. }
  split.
  { intros g m. rewrite revenue_by_genre_In. apply mean_revenue_groups_spec. }
  split; [apply sort_desc_sorted|].
  split.
  { apply Permutation_NoDup with (map fst (mean_revenue_groups fdf)).
    - apply Permutation_map. symmetry. apply sort_desc_perm.
    - rewrite mean_revenue_groups_keys.
      apply (group_keys_NoDup String.compare String_as_OT.cmp_eq
               String_as_OT.cmp_antisym Scompare_trans). }
  split; [apply avg_rating_per_year_spec|apply series_mean_none].
Qed.

(** C3, as stated, fails on a row that names a genre twice: its revenue
    enters the group twice, so the mean of the "Action" line is 60/3 and
    not the 50/2 of one contribution per row.  And a genre whose only row
    has no revenue is not left out of the table: its line has a missing
    mean, as a year without a rating has in the table of mean ratings. *)
Lemma C3_counterexample :
  genres_list row_action_twice = ["Action"; "Action"] /\
  (forall tb, revenue_by_genre tb action_table = [("Action", Some (60 # 3)%Q)]) /\
  genre_revenues "Action" action_table = [Some 10%Q; Some 10%Q; Some 40%Q] /\
  genre_revenues_once "Action" action_table = [Some 10%Q; Some 40%Q] /\
  series_mean (genre_revenues_once "Action" action_table) = Some (50 # 2)%Q /\
  ~ (60 # 3 == 50 # 2)%Q /\
  (forall tb, revenue_by_genre tb [row_no_revenue] = [("Drama", None)]).
Proof.
  repeat split; try reflexivity.
  intros H. unfold Qeq in H. simpl in H. discriminate.
Qed.

Lemma C10_witness :
  In row_comedy (filtered_df sample_table criteria_2000s) /\
  list_sum (map snd (movies_per_year (filtered_df sample_table criteria_2000s))) =
    List.length (filtered_df sample_table criteria_2000s) /\
  exists y, year row_comedy = Some y /\
    In row_comedy (year_group y (filtered_df sample_table criteria_2000s)) /\
    In y (map fst (movies_per_year (filtered_df sample_table criteria_2000s))) /\
    In y (map fst (avg_rating_per_year (filtered_df sample_table criteria_2000s))).
Proof.
  assert (Hin : In row_comedy (filtered_df sample_table criteria_2000s))
    by (simpl; now left).
  destruct (C10_year_groups_cover sample_table criteria_2000s) as (_ & Hsum & Hcov).
  split; [exact Hin|]. split; [exact Hsum|]. exact (Hcov row_comedy Hin).
Defined.

(** ** Genre parser *)

Lemma dict_lookup_name_some (items : list (pyval * pyval)) :
  existsb (fun kv => is_name (fst kv)) items = true <->
  exists v, dict_lookup_name items = Some v.
Proof.
  induction items as [|[k v] items IH]; simpl.
  - split; [discriminate|]. intros (v & H). discriminate.
  - rewrite orb_true_iff, IH. split.
    + intros [Hk|(v' & Hv')].
      * destruct (dict_lookup_name items) as [v'|]; [now exists v'|].
        rewrite Hk. now exists v.
      * rewrite Hv'. now exists v'.
    + intros (v' & H). destruct (dict_lookup_name items) as [v''|].
      * right. now exists v''.
      * left. destruct (is_name k); [reflexivity|discriminate].
Qed.

Lemma dict_lookup_name_none (items : list (pyval * pyval)) :
  existsb (fun kv => is_name (fst kv)) items = false <->
  dict_lookup_name items = None.
Proof.
  destruct (existsb (fun kv => is_name (fst kv)) items) eqn:E.
  - apply dict_lookup_name_some in E. destruct E as (v & ->).
    split; discriminate.
  - split; [|reflexivity]. intros _.
    destruct (dict_lookup_name items) as [v|] eqn:E'; [|reflexivity].
    assert (H : existsb (fun kv => is_name (fst kv)) items = true)
      by (apply dict_lookup_name_some; now exists v).
    congruence.
Qed.

(** The comprehension raises exactly on a list with a faulting element, and
    otherwise returns the names of the elements that have one. *)
Lemma names_of_spec (l : list pyval) :
  names_of l = if existsb faults l then Raised else Ok (names_kept l).
Proof.
  induction l as [|d l IH]; [reflexivity|].
  cbn [names_of existsb names_kept].
  destruct d; cbn [contains_name exc_bind faults name_of orb]; try reflexivity.
  - (* str *)
    destruct (str_contains "name" s); [reflexivity|exact IH].
  - (* tuple *)
    destruct (existsb is_name l0); [reflexivity|exact IH].
  - (* list *)
    destruct (existsb is_name l0); [reflexivity|exact IH].
  - (* set *)
    destruct (existsb is_name l0); [reflexivity|exact IH].
  - (* dict *)
    destruct (existsb (fun kv => is_name (fst kv)) items) eqn:E.
    + apply dict_lookup_name_some in E. destruct E as (v & Hv).
      cbn [get_name exc_bind]. rewrite Hv, IH.
      destruct (existsb faults l); reflexivity.
    + apply dict_lookup_name_none in E. rewrite E. exact IH.
Qed.

Section ParserFacts.

Variable literal_eval : string -> exc pyval.

Lemma parse_genres_raised (x : option string) :
  literal_eval_cell literal_eval x = Raised ->
  parse_genres literal_eval x = Ok [].
Proof. unfold parse_genres. intros ->. reflexivity. Qed.

Lemma parse_genres_list (x : option string) (l : list pyval) :
  literal_eval_cell literal_eval x = Ok (PList l) ->
  parse_genres literal_eval x =
  Ok (if existsb faults l then [] else names_kept l).
Proof.
  unfold parse_genres. intros ->. cbn [exc_bind]. rewrite names_of_spec.
  destruct (existsb faults l); reflexivity.
Qed.

Lemma parse_genres_not_list (x : option string) (v : pyval) :
  literal_eval_cell literal_eval x = Ok v ->
  (forall l, v <> PList l) ->
  parse_genres literal_eval x = Ok [].
Proof.
  unfold parse_genres. intros -> Hv. cbn [exc_bind].
  destruct v; try reflexivity. now elim (Hv l).
Qed.

Lemma parse_genres_total (x : option string) :
  exists names, parse_genres literal_eval x = Ok names.
Proof.
  destruct (literal_eval_cell literal_eval x) as [v|] eqn:E.
  - destruct v;
      try (exists []; eapply parse_genres_not_list;
           [exact E|discriminate]).
    eexists. apply parse_genres_list. exact E.
  - exists []. now apply parse_genres_raised.
Qed.

End ParserFacts.

Lemma objects_do_not_fault (l : list pyval) :
  forallb is_object l = true -> existsb faults l = false.
Proof.
  induction l as [|d l IH]; [reflexivity|]. simpl.
  rewrite andb_true_iff. intros [Hd Hl]. rewrite (IH Hl).
  destruct d; try discriminate. reflexivity.
Qed.

Lemma names_kept_no_name (l : list pyval) :
  (forall d, In d l -> name_of d = None) -> names_kept l = [].
Proof.
  induction l as [|d l IH]; [reflexivity|]. intros H. simpl.
  rewrite (H d) by now left. apply IH. intros d' Hd'. apply H. now right.
Qed.

Lemma names_kept_all_named (l : list pyval) :
  (forall d, In d l -> name_of d <> None) ->
  map Some (names_kept l) = map name_of l.
Proof.
  induction l as [|d l IH]; [reflexivity|]. intros H. simpl.
  destruct (name_of d) as [v|] eqn:E.
  - simpl. f_equal. apply IH. intros d' Hd'. apply H. now right.
  - elim (H d); [now left|assumption].
Qed.

(** C5, as the code has it.  [parse_genres] returns a list on every cell.
    The list is empty when [ast.literal_eval] raises and when the value is
    not a list.  On a list of objects it is the list, in order, of the
    values under ['name'] of the objects that have the key: an object
    without the key is passed over and the names of the others are kept, so
    the list holds every object's name when all have one and is empty when
    none has. *)
Theorem C5_parse_genres (literal_eval : string -> exc pyval) (x : option string) :
  (exists names, parse_genres literal_eval x = Ok names) /\
  (literal_eval_cell literal_eval x = Raised ->
   parse_genres literal_eval x = Ok []) /\
  (forall v, literal_eval_cell literal_eval x = Ok v ->
             (forall l, v <> PList l) ->
             parse_genres literal_eval x = Ok []) /\
  (forall l, literal_eval_cell literal_eval x = Ok (PList l) ->
             forallb is_object l = true ->
             parse_genres literal_eval x = Ok (names_kept l) /\
             ((forall d, In d l -> name_of d <> None) ->
              map Some (names_kept l) = map name_of l) /\
             ((forall d, In d l -> name_of d = None) -> names_kept l = [])).
Proof.
  split; [apply parse_genres_total|].
  split; [apply parse_genres_raised|].
  split; [apply parse_genres_not_list|].
  intros l Hl Hobj. split; [|split].
  - rewrite (parse_genres_list _ _ Hl), (objects_do_not_fault _ Hobj). reflexivity.
  - apply names_kept_all_named.
  - apply names_kept_no_name.
Qed.

Lemma C5_witness :
  parse_genres sample_literal_eval (Some "not a list") = Ok [] /\
  parse_genres sample_literal_eval (Some "{'name': 'Action'}") = Ok [] /\
  parse_genres sample_literal_eval
    (Some "[{'id': 28, 'name': 'Action'}, {'id': 35, 'name': 'Comedy'}]") =
    Ok [PStr "Action"; PStr "Comedy"].
Proof.
  split; [|split].
  - apply (C5_parse_genres sample_literal_eval (Some "not a list")). reflexivity.
  - destruct (C5_parse_genres sample_literal_eval (Some "{'name': 'Action'}"))
      as (_ & _ & H & _).
    apply (H (PDict [(PStr "name", PStr "Action")])); [reflexivity|discriminate].
  - destruct (C5_parse_genres sample_literal_eval
                (Some "[{'id': 28, 'name': 'Action'}, {'id': 35, 'name': 'Comedy'}]"))
      as (_ & _ & _ & H).
    destruct (H [PDict [(PStr "id", PInt 28); (PStr "name", PStr "Action")];
                 PDict [(PStr "id", PInt 35); (PStr "name", PStr "Comedy")]])
      as (E & _); [reflexivity|reflexivity|exact E].
Defined.

(** C5, as stated, fails on a list in which one object lacks the key: the
    result is not empty, it holds the name of the other object. *)
Lemma C5_counterexample :
  sample_literal_eval "[{'id': 28, 'name': 'Action'}, {'id': 35}]" =
    Ok (PList [PDict [(PStr "id", PInt 28); (PStr "name", PStr "Action")];
               PDict [(PStr "id", PInt 35)]]) /\
  name_of (PDict [(PStr "id", PInt 35)]) = None /\
  parse_genres sample_literal_eval
    (Some "[{'id': 28, 'name': 'Action'}, {'id': 35}]") = Ok [PStr "Action"] /\
  parse_genres sample_literal_eval
    (Some "[{'id': 28, 'name': 'Action'}, {'id': 35}]") <> Ok [].
Proof. repeat split; try reflexivity. discriminate. Qed.

(** C9, as the code has it.  On a list, the result is empty as soon as one
    element faults: a number, a boolean, [None], [Ellipsis] or a [bytes],
    a [str] that contains "name", or a list, tuple or set with the element
    ['name'].  Without such an element the names of the objects are kept:
    an element that is a [str] without "name" in it, or a list, tuple or
    set without the element ['name'], is passed over like an object without
    the key. *)
Theorem C9_non_object_elements
  (literal_eval : string -> exc pyval) (x : option string) (l : list pyval) :
  literal_eval_cell literal_eval x = Ok (PList l) ->
  (existsb faults l = true -> parse_genres literal_eval x = Ok []) /\
  (existsb faults l = false -> parse_genres literal_eval x = Ok (names_kept l)) /\
  (forall d, is_object d = false -> name_of d = None) /\
  (forall d, is_object d = false ->
     faults d = match d with
                | PStr s => str_contains "name" s
                | PList e | PTuple e | PSet e => existsb is_name e
                | _ => true
                end).
Proof.
  intros Hl. split; [|split; [|split]].
  - intros H. rewrite (parse_genres_list _ _ Hl), H. reflexivity.
  - intros H. rewrite (parse_genres_list _ _ Hl), H. reflexivity.
  - intros d Hd. destruct d; try reflexivity. discriminate.
  - intros d Hd. destruct d; try reflexivity. discriminate.
Qed.

Lemma C9_witness :
  literal_eval_cell sample_literal_eval (Some "[{'name': 'Action'}, 5]") =
    Ok (PList [PDict [(PStr "name", PStr "Action")]; PInt 5]) /\
  parse_genres sample_literal_eval (Some "[{'name': 'Action'}, 5]") = Ok [].
Proof.
  split; [reflexivity|].
  destruct (@C9_non_object_elements sample_literal_eval
              (Some "[{'name': 'Action'}, 5]")
              [PDict [(PStr "name", PStr "Action")]; PInt 5] eq_refl)
    as (H & _).
  apply H. reflexivity.
Defined.

(** C9, as stated, fails on a list whose element that is not an object is
    a string without "name" in it: the element is passed over and the name
    of the object is extracted. *)
Lemma C9_counterexample :
  sample_literal_eval "[{'name': 'Action'}, 'Drama']" =
    Ok (PList [PDict [(PStr "name", PStr "Action")]; PStr "Drama"]) /\
  is_object (PStr "Drama") = false /\
  parse_genres sample_literal_eval (Some "[{'name': 'Action'}, 'Drama']") =
    Ok [PStr "Action"] /\
  parse_genres sample_literal_eval (Some "[{'name': 'Action'}, 'Drama']") <> Ok [].
Proof. repeat split; try reflexivity. discriminate. Qed.

(** ** Correlation matrix *)

Local Open Scope R_scope.

Lemma Rsum_nonneg (l : list R) :
  (forall x, In x l -> 0 <= x) -> 0 <= Rsum l.
Proof.
  induction l as [|x l IH]; simpl; intros H; [lra|].
  assert (0 <= x) by (apply H; now left).
  assert (0 <= Rsum l) by (apply IH; intros y Hy; apply H; now right).
  lra.
Qed.

Lemma Rsum_zero_terms (l : list R) :
  (forall x, In x l -> 0 <= x) -> Rsum l = 0 -> forall x, In x l -> x = 0.
Proof.
  induction l as [|y l IH]; simpl; intros Hpos Hsum x Hx; [contradiction|].
  assert (Hy : 0 <= y) by (apply Hpos; now left).
  assert (Hl : forall z, In z l -> 0 <= z) by (intros z Hz; apply Hpos; now right).
  pose proof (Rsum_nonneg l Hl) as Hs.
  destruct Hx as [<-|Hx]; [lra|].
  apply IH; [assumption|lra|assumption].
Qed.

Lemma sq_deviation_terms_nonneg (m : R) (xs : list R) (t : R) :
  In t (map (fun x => (x - m) * (x - m)) xs) -> 0 <= t.
Proof.
  rewrite in_map_iff. intros (x & <- & _). apply (Rle_0_sqr (x - m)).
Qed.

Lemma sq_deviation_nonneg (xs : list R) : 0 <= sq_deviation xs.
Proof.
  unfold sq_deviation. apply Rsum_nonneg. apply sq_deviation_terms_nonneg.
Qed.

Lemma sq_deviation_zero (xs : list R) :
  sq_deviation xs = 0 -> forall x, In x xs -> x = Rmean xs.
Proof.
  unfold sq_deviation. intros H x Hx.
  assert (Ht : (x - Rmean xs) * (x - Rmean xs) = 0).
  { apply (Rsum_zero_terms _ (sq_deviation_terms_nonneg (Rmean xs) xs) H).
    apply in_map_iff. exists x. auto. }
  apply Rmult_integral in Ht. lra.
Qed.

Lemma sq_deviation_distinct (xs : list R) (x y : R) :
  In x xs -> In y xs -> x <> y -> sq_deviation xs <> 0.
Proof.
  intros Hx Hy Hne H0.
  pose proof (sq_deviation_zero xs H0 x Hx).
  pose proof (sq_deviation_zero xs H0 y Hy).
  lra.
Qed.

Lemma Rsum_constant (c : R) (xs : list R) :
  (forall x, In x xs -> x = c) -> Rsum xs = INR (List.length xs) * c.
Proof.
  induction xs as [|x xs IH]; intros H.
  - simpl. lra.
  - cbn [List.length]. rewrite S_INR.
    cbn [Rsum fold_right]. fold (Rsum xs).
    rewrite IH by (intros y Hy; apply H; now right).
    rewrite (H x) by now left. lra.
Qed.

Lemma sq_deviation_constant (c : R) (xs : list R) :
  (forall x, In x xs -> x = c) -> sq_deviation xs = 0.
Proof.
  intros H. destruct xs as [|x0 xs']; [reflexivity|].
  set (xs := x0 :: xs') in *.
  assert (Hn : INR (List.length xs) <> 0).
  { apply not_0_INR. discriminate. }
  assert (Hm : Rmean xs = c).
  { unfold Rmean. rewrite (@Rsum_constant c xs H). field. exact Hn. }
  unfold sq_deviation. rewrite Hm.
  assert (Hz : forall l, (forall x, In x l -> x = c) ->
                         Rsum (map (fun x => (x - c) * (x - c)) l) = 0).
  { induction l as [|y l IH]; intros Hl; simpl; [reflexivity|].
    rewrite IH by (intros z Hz; apply Hl; now right).
    rewrite (Hl y) by now left. lra. }
  now apply Hz.
Qed.

Lemma complete_pairs_swap (a b : NumCol) (df : DataFrame) :
  complete_pairs b a df = map swap_pair (complete_pairs a b df).
Proof.
  induction df as [|r df IH]; [reflexivity|]. simpl.
  destruct (num_col a r), (num_col b r); simpl; now rewrite IH.
Qed.

Lemma complete_pairs_filter (a b : NumCol) (df : DataFrame) :
  complete_pairs a b (filter (both_present a b) df) = complete_pairs a b df.
Proof.
  induction df as [|r df IH]; [reflexivity|]. simpl. unfold both_present at 1.
  destruct (num_col a r) as [x|] eqn:Ea, (num_col b r) as [y|] eqn:Eb;
    simpl; rewrite ?Ea, ?Eb, IH; reflexivity.
Qed.

Lemma complete_pairs_diag (a : NumCol) (df : DataFrame) :
  complete_pairs a a df = map diag_pair (map Q2R (dropna (map (num_col a) df))).
Proof.
  induction df as [|r df IH]; [reflexivity|]. simpl.
  destruct (num_col a r); simpl; now rewrite IH.
Qed.

Lemma pearson_nonempty (ps : list (R * R)) :
  ps <> [] ->
  pearson ps =
  if Req_dec_T (sqrt (sq_deviation (map fst ps) * sq_deviation (map snd ps))) 0
  then None else Some (co_deviation ps / sqrt (sq_deviation (map fst ps) * sq_deviation (map snd ps))).
Proof. destruct ps; [congruence|reflexivity]. Qed.

Lemma map_fst_swap (ps : list (R * R)) : map fst (map swap_pair ps) = map snd ps.
Proof. rewrite map_map. reflexivity. Qed.

Lemma map_snd_swap (ps : list (R * R)) : map snd (map swap_pair ps) = map fst ps.
Proof. rewrite map_map. reflexivity. Qed.

Lemma co_deviation_swap (ps : list (R * R)) :
  co_deviation (map swap_pair ps) = co_deviation ps.
Proof.
  unfold co_deviation. rewrite map_fst_swap, map_snd_swap, map_map.
  f_equal. apply map_ext. intros [x y]. simpl. apply Rmult_comm.
Qed.

Lemma pearson_swap (ps : list (R * R)) : pearson (map swap_pair ps) = pearson ps.
Proof.
  destruct ps as [|p ps]; [reflexivity|].
  rewrite !pearson_nonempty by discriminate.
  rewrite co_deviation_swap, map_fst_swap, map_snd_swap.
  rewrite (Rmult_comm (sq_deviation (map snd (p :: ps)))). reflexivity.
Qed.

Lemma co_deviation_diag (xs : list R) :
  co_deviation (map diag_pair xs) = sq_deviation xs.
Proof.
  unfold co_deviation, sq_deviation.
  rewrite !map_map. simpl. rewrite map_id. reflexivity.
Qed.

Lemma pearson_diag (xs : list R) :
  xs <> [] ->
  pearson (map diag_pair xs) =
  if Req_dec_T (sq_deviation xs) 0 then None else Some 1.
Proof.
  intros Hne. rewrite pearson_nonempty by (destruct xs; [congruence|discriminate]).
  rewrite co_deviation_diag, !map_map. simpl. rewrite map_id.
  rewrite sqrt_square by apply sq_deviation_nonneg.
  destruct (Req_dec_T (sq_deviation xs) 0) as [E|E]; [reflexivity|].
  f_equal. now field.
Qed.

Lemma In_column_values (a : NumCol) (df : DataFrame) (r : Row) (x : Q) :
  In r df -> num_col a r = Some x ->
  In (Q2R x) (map Q2R (dropna (map (num_col a) df))).
Proof.
  induction df as [|r' df IH]; [contradiction|]. intros [->|Hin] Hx; simpl.
  - rewrite Hx. now left.
  - destruct (num_col a r'); [right|]; now apply IH.
Qed.

Lemma column_values_In (a : NumCol) (df : DataFrame) (v : R) :
  In v (map Q2R (dropna (map (num_col a) df))) ->
  exists r x, In r df /\ num_col a r = Some x /\ v = Q2R x.
Proof.
  induction df as [|r' df IH]; [contradiction|]. simpl.
  destruct (num_col a r') as [x|] eqn:E; simpl.
  - intros [<-|Hin].
    + exists r', x. auto.
    + destruct (IH Hin) as (r & y & Hr & Hy & ->). exists r, y. auto.
  - intros Hin. destruct (IH Hin) as (r & y & Hr & Hy & ->). exists r, y. auto.
Qed.

Lemma corr_entry_sym (df : DataFrame) (a b : NumCol) :
  corr_entry df a b = corr_entry df b a.
Proof.
  unfold corr_entry. rewrite (complete_pairs_swap a b). now rewrite pearson_swap.
Qed.

Lemma corr_entry_diag_one (df : DataFrame) (a : NumCol) :
  (exists r1 r2 x1 x2, In r1 df /\ In r2 df /\
     num_col a r1 = Some x1 /\ num_col a r2 = Some x2 /\ ~ (x1 == x2)%Q) ->
  corr_entry df a a = Some 1.
Proof.
  intros (r1 & r2 & x1 & x2 & H1 & H2 & E1 & E2 & Hne).
  unfold corr_entry. rewrite complete_pairs_diag.
  pose proof (In_column_values a df r1 H1 E1) as I1.
  pose proof (In_column_values a df r2 H2 E2) as I2.
  rewrite pearson_diag.
  - destruct (Req_dec_T _ 0) as [E|E]; [|reflexivity].
    exfalso. revert E. apply sq_deviation_distinct with (Q2R x1) (Q2R x2); auto.
    intros Heq. apply Hne. now apply eqR_Qeq.
  - intros E. rewrite E in I1. contradiction.
Qed.

Lemma corr_entry_diag_nan (df : DataFrame) (a : NumCol) :
  (forall r1 r2 x1 x2, In r1 df -> In r2 df ->
     num_col a r1 = Some x1 -> num_col a r2 = Some x2 -> (x1 == x2)%Q) ->
  corr_entry df a a = None.
Proof.
  intros Hconst. unfold corr_entry. rewrite complete_pairs_diag.
  destruct (map Q2R (dropna (map (num_col a) df))) as [|v vs] eqn:E; [reflexivity|].
  rewrite <- E. rewrite pearson_diag by (rewrite E; discriminate).
  destruct (Req_dec_T _ 0) as [_|Hnz]; [reflexivity|].
  exfalso. apply Hnz. apply sq_deviation_constant with v.
  intros w Hw.
  assert (Hv : In v (map Q2R (dropna (map (num_col a) df)))) by (rewrite E; now left).
  apply column_values_In in Hw. destruct Hw as (r1 & x1 & R1 & C1 & ->).
  apply column_values_In in Hv. destruct Hv as (r2 & x2 & R2 & C2 & ->).
  apply Qeq_eqR. now apply (Hconst r1 r2).
Qed.

Lemma corr_at_spec (df : DataFrame) (i j : nat) :
  corr_at df i j =
  match nth_error numeric_columns i, nth_error numeric_columns j with
  | Some a, Some b => corr_entry df a b
  | _, _ => None
  end.
Proof.
  unfold corr_at, corr, numeric_columns.
  do 5 (destruct i as [|i];
        [do 5 (destruct j as [|j]; [reflexivity|]); destruct j; reflexivity|]).
  destruct i; destruct j; reflexivity.
Qed.

Lemma corr_at_sym (df : DataFrame) (i j : nat) : corr_at df i j = corr_at df j i.
Proof.
  rewrite !corr_at_spec.
  destruct (nth_error numeric_columns i) as [a|], (nth_error numeric_columns j) as [b|];
    try reflexivity.
  apply corr_entry_sym.
Qed.

(** C7, as the code has it.  An entry of the matrix is Pearson's
    coefficient of the observations of its two columns, and the rows that
    miss one of the two cells have no part in it; the matrix is symmetric;
    a diagonal entry is 1 when the column has two different values, and is
    missing when all the values of the column are the same, a single value
    included. *)
Theorem C7_corr_matrix (df : DataFrame) (a b : NumCol) :
  corr_entry df a b = corr_entry (filter (both_present a b) df) a b /\
  corr_entry df a b = corr_entry df b a /\
  (forall i j, corr_at df i j = corr_at df j i) /\
  (forall i j a' b',
      nth_error numeric_columns i = Some a' ->
      nth_error numeric_columns j = Some b' ->
      corr_at df i j = corr_entry df a' b') /\
  ((exists r1 r2 x1 x2, In r1 df /\ In r2 df /\
      num_col a r1 = Some x1 /\ num_col a r2 = Some x2 /\ ~ (x1 == x2)%Q) ->
   corr_entry df a a = Some 1) /\
  ((forall r1 r2 x1 x2, In r1 df -> In r2 df ->
      num_col a r1 = Some x1 -> num_col a r2 = Some x2 -> (x1 == x2)%Q) ->
   corr_entry df a a = None).
Proof.
  split.
  { unfold corr_entry. now rewrite complete_pairs_filter. }
  split; [apply corr_entry_sym|].
  split; [intros i j; apply corr_at_sym|].
  split.
  { intros i j a' b' Hi Hj. rewrite corr_at_spec, Hi, Hj. reflexivity. }
  split; [apply corr_entry_diag_one|apply corr_entry_diag_nan].
Qed.

Lemma C7_witness :
  (exists r1 r2 x1 x2, In r1 sample_table /\ In r2 sample_table /\
      num_col Budget r1 = Some x1 /\ num_col Budget r2 = Some x2 /\ ~ (x1 == x2)%Q) /\
  corr_entry sample_table Budget Budget = Some 1 /\
  corr_at sample_table 0 0 = Some 1.
Proof.
  assert (Hd : exists r1 r2 x1 x2, In r1 sample_table /\ In r2 sample_table /\
      num_col Budget r1 = Some x1 /\ num_col Budget r2 = Some x2 /\ ~ (x1 == x2)%Q).
  { exists row_drama, row_comedy, 37%Q, 40%Q. simpl.
    repeat split; auto. intros H. unfold Qeq in H. simpl in H. discriminate. }
  destruct (C7_corr_matrix sample_table Budget Budget) as (_ & _ & _ & Hat & Hone & _).
  split; [exact Hd|]. split; [exact (Hone Hd)|].
  rewrite (Hat 0%nat 0%nat Budget Budget eq_refl eq_refl). exact (Hone Hd).
Defined.

(** C7, as stated, fails on a table of one row: the budget column has a
    value, and its diagonal entry is missing, not 1. *)
Lemma C7_counterexample :
  budget row_drama = Some 37%Q /\
  corr_entry [row_drama] Budget Budget = None /\
  corr_at [row_drama] 0 0 = None /\
  corr_entry [row_drama] Budget Budget <> Some 1.
Proof.
  assert (H : corr_entry [row_drama] Budget Budget = None).
  { apply corr_entry_diag_nan. intros r1 r2 x1 x2 [<-|[]] [<-|[]] E1 E2.
    simpl in E1, E2. inversion E1. inversion E2. reflexivity. }
  split; [reflexivity|]. split; [exact H|]. split.
  - rewrite corr_at_spec. exact H.
  - rewrite H. discriminate.
Qed.

Local Close Scope R_scope.

(** ** Scenarios of the specification *)

(** Years 2000-2010 with at least 100 votes keep the second row only:
    the count is 1 and the mean rating is 8. *)
Example scenario_two_rows (tb : TieBreak) :
  filtered_df sample_table criteria_2000s = [row_comedy] /\
  r_movies_count (apply_criteria tb sample_table criteria_2000s) = 1 /\
  r_average_rating (apply_criteria tb sample_table criteria_2000s) = Some (8 # 1)%Q /\
  fst (run_script tb 0 criteria_2000s [mkFrame true sample_table]) =
    Ok (apply_criteria tb sample_table criteria_2000s).
Proof. repeat split; reflexivity. Qed.

(** A selected genre that no row carries, while rows pass the year and
    vote mask: the script returns the aggregates of the empty set. *)
Example scenario_scifi (tb : TieBreak) :
  filtered_df sample_table criteria_scifi = [] /\
  fst (run_script tb 0 criteria_scifi [mkFrame true sample_table]) =
    Ok (aggregates tb []).
Proof. split; reflexivity. Qed.

(** A missing key goes last; tied rows come in their original order under
    one choice of the sort and reversed under the other. *)
Example scenario_sort_ties :
  sort_desc snd first_come
    [("a", Some 1%Q); ("b", None); ("c", Some 3%Q); ("d", Some (2 # 2)%Q)] =
  [("c", Some 3%Q); ("a", Some 1%Q); ("d", Some (2 # 2)%Q); ("b", None)] /\
  sort_desc snd last_come
    [("a", Some 1%Q); ("b", None); ("c", Some 3%Q); ("d", Some (2 # 2)%Q)] =
  [("c", Some 3%Q); ("d", Some (2 # 2)%Q); ("a", Some 1%Q); ("b", None)] /\
  nlargest snd first_come 2
    [("a", Some 1%Q); ("b", None); ("c", Some 3%Q); ("d", Some (2 # 2)%Q)] =
  [("c", Some 3%Q); ("a", Some 1%Q)].
Proof. repeat split; reflexivity. Qed.

(** A filtered row without a rating: the scatter plot of line 72 refuses
    the missing marker size and the script raises. *)
Example scenario_missing_rating (tb : TieBreak) :
  filtered_df [row_no_rating] criteria_all_years = [row_no_rating] /\
  fst (run_script tb 0 criteria_all_years [mkFrame true [row_no_rating]]) = Raised.
Proof. split; reflexivity. Qed.

(** The malformed text of the specification. *)
Example scenario_not_a_list :
  parse_genres sample_literal_eval (Some "not a list") = Ok [] /\
  parse_genres sample_literal_eval None = Ok [].
Proof. split; reflexivity. Qed.

(** * Further properties of the script *)

(** ** The genre selector (line 41) *)

Lemma sorted_set_group_keys (names : list string) :
  sorted_set names = group_keys String.compare (map Some names).
Proof.
  induction names as [|g names IH]; [reflexivity|].
  simpl. now rewrite <- IH.
Qed.

Lemma group_keys_app_some (gs : list string) (ks : list (option string)) :
  group_keys String.compare (map Some gs ++ ks) =
  fold_right (insert_key String.compare) (group_keys String.compare ks) gs.
Proof.
  induction gs as [|g gs IH]; [reflexivity|]. simpl. now rewrite IH.
Qed.

Lemma sorted_set_app (gs names : list string) :
  sorted_set (gs ++ names) =
  fold_right (insert_key String.compare) (sorted_set names) gs.
Proof. unfold sorted_set. now rewrite fold_right_app. Qed.

Lemma explode_keys_all_genres (df : DataFrame) :
  group_keys String.compare (map fst (explode df)) = all_genres df.
Proof.
  unfold all_genres, explode.
  induction df as [|r df IH]; [reflexivity|].
  cbn [flat_map]. rewrite map_app, sorted_set_app, <- IH.
  destruct (genres_list r) as [|g gs]; [reflexivity|].
  rewrite map_map. cbn [fst].
  change (map (fun x : string => Some x) (g :: gs)) with (map Some (g :: gs)).
  apply group_keys_app_some.
Qed.

Lemma all_genres_In (df : DataFrame) (g : string) :
  In g (all_genres df) <-> exists r, In r df /\ In g (genres_list r).
Proof.
  rewrite <- explode_keys_all_genres.
  rewrite (In_group_keys String.compare String_as_OT.cmp_eq).
  apply explode_keys.
Qed.

(** X1. The options of the genre selector are the names that occur in the
    list of some row, each once, in strictly ascending order. *)
Theorem X1_all_genres_sorted_distinct (df : DataFrame) :
  StronglySorted (key_lt String.compare) (all_genres df) /\
  NoDup (all_genres df) /\
  (forall g, In g (all_genres df) <-> exists r, In r df /\ In g (genres_list r)).
Proof.
  split; [|split].
  - rewrite <- explode_keys_all_genres.
    apply (group_keys_sorted String.compare String_as_OT.cmp_eq
             String_as_OT.cmp_antisym Scompare_trans).
  - rewrite <- explode_keys_all_genres.
    apply (group_keys_NoDup String.compare String_as_OT.cmp_eq
             String_as_OT.cmp_antisym Scompare_trans).
  - apply all_genres_In.
Qed.

(** X2. On the whole table the genres of the revenue chart are the options
    of the genre selector, and on a filtered set every genre of the chart is
    one of the options. *)
Theorem X2_chart_genres_are_options (tb : TieBreak) (df : DataFrame) :
  map fst (mean_revenue_groups df) = all_genres df /\
  Permutation (map fst (revenue_by_genre tb df)) (all_genres df) /\
  (forall c, incl (map fst (revenue_by_genre tb (filtered_df df c))) (all_genres df)).
Proof.
  assert (Hk : map fst (mean_revenue_groups df) = all_genres df).
  { rewrite mean_revenue_groups_keys. apply explode_keys_all_genres. }
  split; [exact Hk|]. split.
  - rewrite <- Hk. apply Permutation_map. apply sort_desc_perm.
  - intros c g Hg. apply in_map_iff in Hg. destruct Hg as ((g' & m) & <- & Hin).
    apply revenue_by_genre_In, mean_revenue_groups_spec in Hin.
    destruct Hin as ((r & Hr & Hg) & _).
    apply all_genres_In. exists r. split; [|assumption].
    rewrite filtered_df_full_mask in Hr. now apply filter_In in Hr.
Qed.

(** ** The genre selection (lines 51-52) *)

Lemma full_mask_set_genres (c : FilterCriteria) (gs : list string) (r : Row) :
  full_mask (set_genres c gs) r =
  base_mask c r &&
  match gs with
  | [] => true
  | _ :: _ => existsb (fun g => py_in g (genres_list r)) gs
  end.
Proof. reflexivity. Qed.

Lemma existsb_py_in_spec (gs : list string) (r : Row) :
  existsb (fun g => py_in g (genres_list r)) gs = true <->
  exists g, In g gs /\ In g (genres_list r).
Proof.
  rewrite existsb_exists. split; intros (g & H1 & H2); exists g;
    (split; [assumption|now apply py_in_spec]).
Qed.

Lemma genre_test_incl (gs gs' : list string) (r : Row) :
  incl gs gs' ->
  existsb (fun g => py_in g (genres_list r)) gs = true ->
  existsb (fun g => py_in g (genres_list r)) gs' = true.
Proof.
  intros Hincl. rewrite !existsb_py_in_spec. intros (g & H1 & H2).
  exists g. split; [now apply Hincl|assumption].
Qed.

(** X3. Selecting every genre is not selecting none: with all the options
    selected the filter keeps the rows of the unrestricted result that have
    at least one genre and drops those whose list is empty. *)
Theorem X3_all_genres_selected (df : DataFrame) (c : FilterCriteria) :
  all_genres df <> [] ->
  filtered_df df (set_genres c (all_genres df)) =
  filter (fun r => match genres_list r with [] => false | _ :: _ => true end)
         (filtered_df df (set_genres c [])).
Proof.
  intros Hne. rewrite !filtered_df_full_mask, filter_filter_and.
  apply filter_ext_in. intros r Hr. rewrite !full_mask_set_genres.
  rewrite andb_true_r. f_equal.
  assert (Hiff : existsb (fun g => py_in g (genres_list r)) (all_genres df) = true <->
                 genres_list r <> []).
  { rewrite existsb_py_in_spec. split.
    - intros (g & _ & Hg) E. rewrite E in Hg. contradiction.
    - intros Hr'. destruct (genres_list r) as [|g gs] eqn:Er; [congruence|].
      exists g. split; [|now left].
      apply all_genres_In. exists r. split; [assumption|]. rewrite Er. now left. }
  destruct (all_genres df) as [|g0 gs0] eqn:E; [congruence|].
  destruct (existsb (fun g => py_in g (genres_list r)) (g0 :: gs0)) eqn:Ex.
  - destruct (genres_list r); [|reflexivity]. now elim (proj1 Hiff eq_refl).
  - destruct (genres_list r); [reflexivity|].
    assert (false = true) by (apply Hiff; discriminate). discriminate.
Qed.

Lemma X3_witness :
  all_genres sample_table <> [] /\
  all_genres (row_no_genres :: sample_table) = ["Comedy"; "Drama"] /\
  filtered_df (row_no_genres :: sample_table) (set_genres criteria_all_years []) =
    [row_no_genres; row_drama; row_comedy] /\
  filtered_df (row_no_genres :: sample_table)
              (set_genres criteria_all_years (all_genres (row_no_genres :: sample_table))) =
    [row_drama; row_comedy].
Proof.
  split; [discriminate|]. split; [reflexivity|]. split; [reflexivity|].
  rewrite (@X3_all_genres_selected (row_no_genres :: sample_table) criteria_all_years);
    [reflexivity|discriminate].
Defined.

(** X4. The selected genres are alternatives.  A selection with more
    names, starting from a non-empty one, keeps every row it kept before;
    two selections with the same names, in any order and with any
    repetition, keep the same rows; and a row passes a selection made of
    two non-empty parts exactly when it passes one of the parts. *)
Theorem X4_genre_selection_is_a_union
  (df : DataFrame) (c : FilterCriteria) (gs gs' : list string) :
  (gs <> [] -> incl gs gs' ->
   subseq (filtered_df df (set_genres c gs)) (filtered_df df (set_genres c gs'))) /\
  ((forall g, In g gs <-> In g gs') ->
   filtered_df df (set_genres c gs) = filtered_df df (set_genres c gs')) /\
  (gs <> [] -> gs' <> [] ->
   forall r, In r (filtered_df df (set_genres c (gs ++ gs'))) <->
             In r (filtered_df df (set_genres c gs)) \/
             In r (filtered_df df (set_genres c gs'))).
Proof.
  split; [|split].
  - intros Hne Hincl. rewrite !filtered_df_full_mask.
    apply subseq_filter_impl. intros r. rewrite !full_mask_set_genres.
    rewrite !andb_true_iff. intros [Hb Hg]. split; [assumption|].
    destruct gs as [|g0 gs0]; [congruence|].
    destruct gs' as [|g1 gs1]; [elim (Hincl g0); now left|].
    now apply genre_test_incl with (g0 :: gs0).
  - intros Hsame. rewrite !filtered_df_full_mask. apply filter_ext.
    intros r. rewrite !full_mask_set_genres. f_equal.
    destruct gs as [|g0 gs0], gs' as [|g1 gs1]; try reflexivity.
    + elim (proj2 (Hsame g1)). now left.
    + elim (proj1 (Hsame g0)). now left.
    + apply eq_true_iff_eq. split; apply genre_test_incl; intros g Hg;
        now apply Hsame.
  - intros Hne Hne' r. rewrite !filtered_df_full_mask, !filter_In.
    rewrite !full_mask_set_genres, !andb_true_iff.
    destruct gs as [|g0 gs0]; [congruence|].
    destruct gs' as [|g1 gs1]; [congruence|].
    assert (Hor : existsb (fun g => py_in g (genres_list r)) ((g0 :: gs0) ++ g1 :: gs1) =
                  existsb (fun g => py_in g (genres_list r)) (g0 :: gs0) ||
                  existsb (fun g => py_in g (genres_list r)) (g1 :: gs1))
      by apply existsb_app.
    cbn [app] in Hor |- *. rewrite Hor, orb_true_iff. tauto.
Qed.

Lemma X4_witness :
  ["Drama"] <> [] /\ incl ["Drama"] ["Comedy"; "Drama"] /\
  subseq (filtered_df sample_table (set_genres criteria_all_years ["Drama"]))
         (filtered_df sample_table (set_genres criteria_all_years ["Comedy"; "Drama"])) /\
  filtered_df sample_table (set_genres criteria_all_years ["Drama"; "Comedy"; "Drama"]) =
  filtered_df sample_table (set_genres criteria_all_years ["Comedy"; "Drama"]).
Proof.
  assert (Hne : ["Drama"] <> []) by discriminate.
  assert (Hincl : incl ["Drama"] ["Comedy"; "Drama"]).
  { intros g [<-|[]]. right. now left. }
  split; [exact Hne|]. split; [exact Hincl|]. split.
  - exact (proj1 (X4_genre_selection_is_a_union sample_table criteria_all_years
                    ["Drama"] ["Comedy"; "Drama"]) Hne Hincl).
  - apply (X4_genre_selection_is_a_union sample_table criteria_all_years
             ["Drama"; "Comedy"; "Drama"] ["Comedy"; "Drama"]).
    intros g. simpl. tauto.
Defined.

(** ** The year slider (line 43) *)

Lemma series_min_none (s : list (option Z)) :
  series_min s = None <-> forall v, In v s -> v = None.
Proof.
  induction s as [|[y|] s IH]; simpl.
  - split; [intros _ v []|reflexivity].
  - destruct (series_min s); split; try discriminate;
      intros H; specialize (H (Some y) (or_introl eq_refl)); discriminate.
  - rewrite IH. split.
    + intros H v [<-|Hv]; [reflexivity|now apply H].
    + intros H v Hv. apply H. now right.
Qed.

Lemma series_min_spec (s : list (option Z)) (m : Z) :
  series_min s = Some m ->
  In (Some m) s /\ forall y, In (Some y) s -> (m <= y)%Z.
Proof.
  revert m. induction s as [|[y|] s IH]; simpl; intros m Hm.
  - discriminate.
  - destruct (series_min s) as [m'|] eqn:E.
    + inversion Hm; subst. destruct (IH m' eq_refl) as (Hin & Hle). split.
      * destruct (Z.min_spec y m') as [[_ ->]|[_ ->]]; auto.
      * intros z [Hz|Hz]; [inversion Hz; subst; lia|].
        specialize (Hle z Hz). lia.
    + inversion Hm; subst. split; [now left|].
      intros z [Hz|Hz]; [inversion Hz; lia|].
      pose proof (proj1 (series_min_none s) E _ Hz). discriminate.
  - destruct (IH m Hm) as (Hin & Hle). split; [now right|].
    intros z [Hz|Hz]; [discriminate|now apply Hle].
Qed.

Lemma series_max_none (s : list (option Z)) :
  series_max s = None <-> forall v, In v s -> v = None.
Proof.
  induction s as [|[y|] s IH]; simpl.
  - split; [intros _ v []|reflexivity].
  - destruct (series_max s); split; try discriminate;
      intros H; specialize (H (Some y) (or_introl eq_refl)); discriminate.
  - rewrite IH. split.
    + intros H v [<-|Hv]; [reflexivity|now apply H].
    + intros H v Hv. apply H. now right.
Qed.

Lemma series_max_spec (s : list (option Z)) (m : Z) :
  series_max s = Some m ->
  In (Some m) s /\ forall y, In (Some y) s -> (y <= m)%Z.
Proof.
  revert m. induction s as [|[y|] s IH]; simpl; intros m Hm.
  - discriminate.
  - destruct (series_max s) as [m'|] eqn:E.
    + inversion Hm; subst. destruct (IH m' eq_refl) as (Hin & Hle). split.
      * destruct (Z.max_spec y m') as [[_ ->]|[_ ->]]; auto.
      * intros z [Hz|Hz]; [inversion Hz; subst; lia|].
        specialize (Hle z Hz). lia.
    + inversion Hm; subst. split; [now left|].
      intros z [Hz|Hz]; [inversion Hz; lia|].
      pose proof (proj1 (series_max_none s) E _ Hz). discriminate.
  - destruct (IH m Hm) as (Hin & Hle). split; [now right|].
    intros z [Hz|Hz]; [discriminate|now apply Hle].
Qed.

Lemma year_column_In (df : DataFrame) (v : option Z) :
  In v (map year df) <-> exists r, In r df /\ year r = v.
Proof.
  rewrite in_map_iff. split; intros (r & H1 & H2); exists r; auto.
Qed.

Lemma year_slider_bounds_range (df : DataFrame) (lo hi : Z) :
  year_slider_bounds df = Ok (lo, hi) ->
  forall r y, In r df -> year r = Some y -> (lo <= y <= hi)%Z.
Proof.
  unfold year_slider_bounds.
  destruct (series_min (map year df)) as [lo'|] eqn:Emin; [|discriminate].
  destruct (series_max (map year df)) as [hi'|] eqn:Emax; [|discriminate].
  simpl. intros H r y Hr Hy. inversion H; subst.
  assert (Hin : In (Some y) (map year df)) by (apply year_column_In; now exists r).
  split.
  - now apply (proj2 (series_min_spec _ Emin)).
  - now apply (proj2 (series_max_spec _ Emax)).
Qed.

(** X6. Computing the bounds of the year slider raises exactly when no row
    has a year.  Otherwise the bounds are the years of two rows, and the
    year of every row that has one lies between them. *)
Theorem X6_year_slider_bounds (df : DataFrame) :
  (year_slider_bounds df = Raised <-> forall r, In r df -> year r = None) /\
  (forall lo hi, year_slider_bounds df = Ok (lo, hi) ->
     (exists r, In r df /\ year r = Some lo) /\
     (exists r, In r df /\ year r = Some hi) /\
     (forall r y, In r df -> year r = Some y -> (lo <= y <= hi)%Z)).
Proof.
  unfold year_slider_bounds. split.
  - destruct (series_min (map year df)) as [lo|] eqn:Emin.
    + destruct (series_max (map year df)) as [hi|] eqn:Emax.
      * simpl. split; [discriminate|]. intros Hnone.
        apply series_min_spec in Emin. destruct Emin as (Hin & _).
        apply year_column_In in Hin. destruct Hin as (r & Hr & Hy).
        rewrite (Hnone r Hr) in Hy. discriminate.
      * simpl. split; [intros _|reflexivity].
        intros r Hr. apply (proj1 (series_max_none _) Emax).
        apply year_column_In. now exists r.
    + simpl. split; [intros _|reflexivity].
      intros r Hr. apply (proj1 (series_min_none _) Emin).
      apply year_column_In. now exists r.
  - intros lo hi.
    destruct (series_min (map year df)) as [lo'|] eqn:Emin; [|discriminate].
    destruct (series_max (map year df)) as [hi'|] eqn:Emax; [|discriminate].
    simpl. intros H. inversion H; subst.
    apply series_min_spec in Emin. destruct Emin as (Hlo & Hmin).
    apply series_max_spec in Emax. destruct Emax as (Hhi & Hmax).
    split; [now apply year_column_In|]. split; [now apply year_column_In|].
    intros r y Hr Hy.
    assert (Hin : In (Some y) (map year df)) by (apply year_column_In; now exists r).
    split; [now apply Hmin|now apply Hmax].
Qed.

Lemma X6_witness :
  year_slider_bounds sample_table = Ok (2000, 2005)%Z /\
  (exists r, In r sample_table /\ year r = Some 2000%Z) /\
  (exists r, In r sample_table /\ year r = Some 2005%Z) /\
  (forall r y, In r sample_table -> year r = Some y -> (2000 <= y <= 2005)%Z).
Proof.
  split; [reflexivity|].
  apply (proj2 (X6_year_slider_bounds sample_table) 2000%Z 2005%Z). reflexivity.
Defined.

(** X7. With the year slider at its two bounds the year test only asks for
    a year: the mask of lines 47-48 keeps the rows that have a year and
    enough votes. *)
Theorem X7_full_year_range (df : DataFrame) (c : FilterCriteria) :
  year_slider_bounds df = Ok (year_lo c, year_hi c) ->
  filter (base_mask c) df =
  filter (fun r => has_key year r && ge_votes (vote_count r) (min_votes c)) df /\
  (forall r, In r (filtered_df df (set_genres c [])) <->
             In r df /\ (exists y, year r = Some y) /\ enough_votes c r).
Proof.
  intros Hb.
  pose proof (year_slider_bounds_range df Hb) as Hrange.
  assert (Hmask : forall r, In r df ->
            base_mask c r = has_key year r && ge_votes (vote_count r) (min_votes c)).
  { intros r Hr. unfold base_mask, has_key. f_equal.
    destruct (year r) as [y|] eqn:Ey; [|reflexivity].
    apply between_spec. exists y. split; [reflexivity|]. now apply (Hrange r). }
  split.
  - apply filter_ext_in. exact Hmask.
  - intros r. rewrite filtered_df_full_mask, filter_In, full_mask_set_genres.
    rewrite andb_true_r. split.
    + intros (Hr & Hm). rewrite (Hmask r Hr), andb_true_iff in Hm.
      destruct Hm as (Hy & Hv). split; [assumption|]. split.
      * unfold has_key in Hy. destruct (year r) as [y|]; [now exists y|discriminate].
      * now apply ge_votes_spec.
    + intros (Hr & (y & Hy) & Hv). split; [assumption|].
      rewrite (Hmask r Hr), andb_true_iff. split.
      * unfold has_key. now rewrite Hy.
      * now apply ge_votes_spec.
Qed.

Lemma X7_witness :
  year_slider_bounds sample_table =
    Ok (year_lo criteria_slider_bounds, year_hi criteria_slider_bounds) /\
  filter (base_mask criteria_slider_bounds) sample_table =
  filter (fun r => has_key year r &&
                   ge_votes (vote_count r) (min_votes criteria_slider_bounds))
         sample_table.
Proof.
  split; [reflexivity|].
  apply (@X7_full_year_range sample_table criteria_slider_bounds). reflexivity.
Defined.

(** ** The tables by year (lines 92 and 96) *)

(** X10. The two tables by year have the same years, in strictly
    ascending order; every year of the count table is the year of a row and
    its count is at least 1; on a filtered set every year lies in the
    selected range. *)
Theorem X10_year_tables (df : DataFrame) :
  StronglySorted Z.lt (map fst (movies_per_year df)) /\
  map fst (avg_rating_per_year df) = map fst (movies_per_year df) /\
  (forall y n, In (y, n) (movies_per_year df) ->
     1 <= n /\ exists r, In r df /\ year r = Some y) /\
  (forall c y n, In (y, n) (movies_per_year (filtered_df df c)) ->
     (year_lo c <= y <= year_hi c)%Z).
Proof.
  assert (Hkeys : forall t, map fst (movies_per_year t) =
                            group_keys Z.compare (map year t)).
  { intros t. unfold movies_per_year. rewrite map_map. simpl. apply map_id. }
  assert (Hrow : forall t y n, In (y, n) (movies_per_year t) ->
                   n = List.length (year_group y t) /\
                   exists r, In r t /\ year r = Some y).
  { intros t y n Hin. unfold movies_per_year in Hin. apply in_map_iff in Hin.
    destruct Hin as (y' & Heq & Hk). inversion Heq; subst.
    split; [reflexivity|]. now apply year_keys_spec. }
  split; [|split; [|split]].
  - rewrite Hkeys.
    exact (group_keys_sorted Z.compare Z.compare_eq_iff Zcompare_antisym
             Zcompare_trans (map year df)).
  - rewrite Hkeys. unfold avg_rating_per_year. rewrite map_map. simpl. apply map_id.
  - intros y n Hin. destruct (Hrow df y n Hin) as (-> & r & Hr & Hy).
    split; [|now exists r].
    assert (Hg : In r (year_group y df)).
    { unfold year_group. apply filter_In. split; [assumption|].
      rewrite Hy. simpl. apply Z.eqb_refl. }
    destruct (year_group y df); [contradiction|simpl; lia].
  - intros c y n Hin. destruct (Hrow _ y n Hin) as (_ & r & Hr & Hy).
    rewrite filtered_df_full_mask, filter_In, full_mask_spec in Hr.
    destruct Hr as (_ & (y' & Hy' & Hrange) & _). congruence.
Qed.

(** ** The top tables (lines 76 and 108) *)

Lemma sorted_app_dominates (A : Type) (R : A -> A -> Prop) (l1 l2 : list A) :
  StronglySorted R (l1 ++ l2) ->
  StronglySorted R l1 /\ forall a b, In a l1 -> In b l2 -> R a b.
Proof.
  induction l1 as [|x l1 IH]; simpl; intros H.
  - split; [constructor|]. intros a b [].
  - inversion H as [|x' l' Hs Hall]; subst. destruct (IH Hs) as (Hs1 & Hd).
    rewrite Forall_forall in Hall. split.
    + constructor; [assumption|]. apply Forall_forall. intros a Ha.
      apply Hall. apply in_or_app. now left.
    + intros a b [<-|Ha] Hb; [|now apply Hd].
      apply Hall. apply in_or_app. now right.
Qed.

Lemma nlargest_dominates
  (A : Type) (key : A -> option Q) (tb : TieBreak) (n : nat) (l : list A) :
  List.length (nlargest key tb n l) = Nat.min n (List.length l) /\
  StronglySorted (desc_by key) (nlargest key tb n l) /\
  exists rest,
    Permutation (nlargest key tb n l ++ rest) l /\
    forall a b, In a (nlargest key tb n l) -> In b rest -> desc_by key a b.
Proof.
  assert (Hany : forall tb',
            List.length (firstn n (sort_desc key tb' l)) = Nat.min n (List.length l) /\
            StronglySorted (desc_by key) (firstn n (sort_desc key tb' l)) /\
            exists rest,
              Permutation (firstn n (sort_desc key tb' l) ++ rest) l /\
              forall a b, In a (firstn n (sort_desc key tb' l)) -> In b rest ->
                          desc_by key a b).
  { intros tb'.
    pose proof (firstn_skipn n (sort_desc key tb' l)) as Hsplit.
    pose proof (sort_desc_sorted key tb' l) as Hs. rewrite <- Hsplit in Hs.
    apply sorted_app_dominates in Hs. destruct Hs as (Hs1 & Hd).
    split; [now rewrite length_firstn, sort_desc_length|].
    split; [exact Hs1|].
    exists (skipn n (sort_desc key tb' l)). split; [|exact Hd].
    rewrite Hsplit. apply sort_desc_perm. }
  unfold nlargest. destruct (Nat.leb (List.length l) n); apply Hany.
Qed.

(** X11. Whatever the size of the filtered set, the top-revenue table has
    20 rows or all of them if there are fewer, is in descending order of
    revenue, and consists of rows of the filtered set none of which has a
    smaller revenue than a row left out; the same holds for the top-10
    table and the rating. *)
Theorem X11_top_tables_dominate (tb : TieBreak) (fdf : DataFrame) :
  (List.length (top_revenue tb fdf) = Nat.min 20 (List.length fdf) /\
   StronglySorted (desc_by revenue) (top_revenue tb fdf) /\
   exists rest,
     Permutation (top_revenue tb fdf ++ rest) fdf /\
     forall a b, In a (top_revenue tb fdf) -> In b rest -> desc_by revenue a b) /\
  (List.length (top_rated tb fdf) = Nat.min 10 (List.length fdf) /\
   StronglySorted (desc_by t10_vote_average) (top_rated tb fdf) /\
   exists rest,
     Permutation (top_rated tb fdf ++ rest) (map project_top10 fdf) /\
     forall a b, In a (top_rated tb fdf) -> In b rest -> desc_by t10_vote_average a b).
Proof.
  split.
  - apply nlargest_dominates.
  - unfold top_rated. rewrite <- (length_map project_top10 fdf).
    apply nlargest_dominates.
Qed.

Lemma enumerate_map (A B : Type) (f : A -> B) (l : list A) :
  enumerate (map f l) = map (fun p => (fst p, f (snd p))) (enumerate l).
Proof.
  unfold enumerate. rewrite length_map. generalize 0.
  induction l as [|x l IH]; intros start; [reflexivity|].
  simpl. now rewrite IH.
Qed.

Lemma insert_desc_map (A B : Type) (f : A -> B) (key : A -> option Q)
  (key' : B -> option Q) (tb : TieBreak) (ks : list (option Q))
  (x : nat * A) (l : list (nat * A)) :
  (forall a, key' (f a) = key a) ->
  insert_desc key' tb ks (fst x, f (snd x)) (map (fun p => (fst p, f (snd p))) l) =
  map (fun p => (fst p, f (snd p))) (insert_desc key tb ks x l).
Proof.
  intros Hk. induction l as [|y l IH]; [reflexivity|].
  simpl. unfold goes_before. cbn [fst snd]. rewrite !Hk.
  destruct (if key_eqb (key (snd x)) (key (snd y))
            then tb ks (fst x) (fst y)
            else ge_desc (key (snd x)) (key (snd y))); [reflexivity|].
  simpl. now rewrite IH.
Qed.

Lemma fold_insert_desc_map (A B : Type) (f : A -> B) (key : A -> option Q)
  (key' : B -> option Q) (tb : TieBreak) (ks : list (option Q))
  (el : list (nat * A)) :
  (forall a, key' (f a) = key a) ->
  fold_right (insert_desc key' tb ks) [] (map (fun p => (fst p, f (snd p))) el) =
  map (fun p => (fst p, f (snd p))) (fold_right (insert_desc key tb ks) [] el).
Proof.
  intros Hk. induction el as [|x el IH]; [reflexivity|].
  cbn [map fold_right]. rewrite IH. now apply insert_desc_map.
Qed.

Lemma sort_desc_map (A B : Type) (f : A -> B) (key : A -> option Q)
  (key' : B -> option Q) (tb : TieBreak) (l : list A) :
  (forall a, key' (f a) = key a) ->
  sort_desc key' tb (map f l) = map f (sort_desc key tb l).
Proof.
  intros Hk. unfold sort_desc.
  assert (Hks : map key' (map f l) = map key l).
  { rewrite map_map. apply map_ext. exact Hk. }
  rewrite Hks, enumerate_map, (fold_insert_desc_map f key key' tb _ _ Hk).
  rewrite !map_map. reflexivity.
Qed.

(** X12. Selecting the five columns before or after taking the ten best
    rated rows gives the same table: the top-10 table is the projection of
    the ten best rated rows of the filtered set. *)
Theorem X12_top_rated_projection (tb : TieBreak) (fdf : DataFrame) :
  top_rated tb fdf = map project_top10 (nlargest vote_average tb 10 fdf).
Proof.
  unfold top_rated, nlargest. rewrite length_map.
  destruct (Nat.leb (List.length fdf) 10).
  - rewrite (sort_desc_map project_top10 vote_average t10_vote_average tb fdf)
      by reflexivity.
    apply firstn_map.
  - rewrite (sort_desc_map project_top10 vote_average t10_vote_average first_come fdf)
      by reflexivity.
    apply firstn_map.
Qed.

(** ** The groups by genre (lines 80-83) *)

Lemma exploded_with_key (df : DataFrame) :
  List.length (filter (has_key fst) (explode df)) =
  list_sum (map (fun r => List.length (genres_list r)) df).
Proof.
  unfold explode.
  set (copies := fun r : Row =>
         match genres_list r with
         | [] => [(None, r)]
         | gs => map (fun g => (Some g, r)) gs
         end).
  induction df as [|r df IH]; [reflexivity|].
  change (flat_map copies (r :: df)) with (copies r ++ flat_map copies df).
  change (list_sum (map (fun r0 => List.length (genres_list r0)) (r :: df)))
    with (List.length (genres_list r)
          + list_sum (map (fun r0 => List.length (genres_list r0)) df)).
  rewrite filter_app, length_app, IH. f_equal.
  unfold copies. destruct (genres_list r) as [|g gs]; [reflexivity|].
  rewrite filter_all_true.
  - now rewrite length_map.
  - intros p Hp. apply in_map_iff in Hp. destruct Hp as (g' & <- & _). reflexivity.
Qed.

(** X13. The sizes of the genre groups add up to the number of genre
    entries of the rows: a row with k names in its list is counted k times
    over the groups, and a row with an empty list in none. *)
Theorem X13_genre_group_sizes (df : DataFrame) :
  list_sum (map (fun g => List.length (genre_group g (explode df))) (all_genres df)) =
  list_sum (map (fun r => List.length (genres_list r)) df).
Proof.
  rewrite <- explode_keys_all_genres, <- exploded_with_key.
  apply (group_sizes_sum String.compare String.eqb String_as_OT.cmp_eq
           String_as_OT.cmp_antisym Scompare_trans String.eqb_eq).
Qed.

(** ** When the script raises (lines 46-72) *)







(** ** The genres column of the loader (lines 24-33) *)

(** X15. Building the ['genres_list'] column never raises, whatever the
    cells of ['genres'] hold: the column has one list per cell, the list
    [parse_genres] returns on it. *)
Theorem X15_genres_list_column
  (literal_eval : string -> exc pyval) (genres : list (option string)) :
  exists col,
    genres_list_column literal_eval genres = Ok col /\
    List.length col = List.length genres /\
    Forall2 (fun x names => parse_genres literal_eval x = Ok names) genres col.
Proof.
  unfold genres_list_column.
  induction genres as [|x genres (col & Hcol & Hlen & Hall)].
  - exists []. repeat split; constructor.
  - destruct (parse_genres_total literal_eval x) as (names & Hx).
    exists (names :: col). cbn [series_apply]. rewrite Hx, Hcol. cbn [exc_bind].
    split; [reflexivity|]. split; [simpl; now rewrite Hlen|].
    now constructor.
Qed.

(** ** Range of the correlations (line 102) *)

Local Open Scope R_scope.

Lemma cauchy_schwarz_step (Saa Sbb Sab a b : R) :
  0 <= Saa -> 0 <= Sbb -> Sab * Sab <= Saa * Sbb ->
  (Sab + a * b) * (Sab + a * b) <= (Saa + a * a) * (Sbb + b * b).
Proof.
  intros Haa Hbb Hab.
  set (P := Saa * (b * b) + (a * a) * Sbb).
  set (T := 2 * Sab * (a * b)).
  assert (HP : 0 <= P).
  { unfold P. apply Rplus_le_le_0_compat; apply Rmult_le_pos;
      try assumption; apply Rle_0_sqr. }
  assert (Hsq : T * T <= P * P).
  { assert (H1 : T * T = 4 * (Sab * Sab) * ((a * a) * (b * b))) by (unfold T; ring).
    assert (H2 : 4 * (Saa * Sbb) * ((a * a) * (b * b)) <= P * P).
    { assert (H3 : P * P - 4 * (Saa * Sbb) * ((a * a) * (b * b)) =
                   (Saa * (b * b) - (a * a) * Sbb) * (Saa * (b * b) - (a * a) * Sbb))
        by (unfold P; ring).
      pose proof (Rle_0_sqr (Saa * (b * b) - (a * a) * Sbb)) as H4.
      unfold Rsqr in H4. lra. }
    assert (H5 : 0 <= (a * a) * (b * b)).
    { apply Rmult_le_pos; apply Rle_0_sqr. }
    assert (H6 : (Sab * Sab) * ((a * a) * (b * b)) <= (Saa * Sbb) * ((a * a) * (b * b))).
    { apply Rmult_le_compat_r; assumption. }
    lra. }
  assert (HT : T <= P).
  { destruct (Rle_or_lt T P) as [H|H]; [exact H|].
    assert (P * P < T * T).
    { apply Rle_lt_trans with (P * T).
      - apply Rmult_le_compat_l; lra.
      - apply Rmult_lt_compat_r; lra. }
    lra. }
  assert (Hexp : (Saa + a * a) * (Sbb + b * b) - (Sab + a * b) * (Sab + a * b) =
                 (Saa * Sbb - Sab * Sab) + (P - T)) by (unfold P, T; ring).
  lra.
Qed.

Lemma cauchy_schwarz (l : list (R * R)) :
  Rsum (map (fun p => fst p * snd p) l) * Rsum (map (fun p => fst p * snd p) l) <=
  Rsum (map (fun p => fst p * fst p) l) * Rsum (map (fun p => snd p * snd p) l).
Proof.
  induction l as [|[a b] l IH].
  - simpl. lra.
  - cbn [map Rsum fold_right fst snd].
    fold (Rsum (map (fun p => fst p * snd p) l)).
    fold (Rsum (map (fun p => fst p * fst p) l)).
    fold (Rsum (map (fun p => snd p * snd p) l)).
    set (Sab := Rsum (map (fun p => fst p * snd p) l)) in *.
    set (Saa := Rsum (map (fun p => fst p * fst p) l)) in *.
    set (Sbb := Rsum (map (fun p => snd p * snd p) l)) in *.
    assert (Haa : 0 <= Saa).
    { apply Rsum_nonneg. intros x Hx. apply in_map_iff in Hx.
      destruct Hx as (p & <- & _). apply Rle_0_sqr. }
    assert (Hbb : 0 <= Sbb).
    { apply Rsum_nonneg. intros x Hx. apply in_map_iff in Hx.
      destruct Hx as (p & <- & _). apply Rle_0_sqr. }
    pose proof (cauchy_schwarz_step a b Haa Hbb IH) as H.
    lra.
Qed.

Lemma co_deviation_square (ps : list (R * R)) :
  co_deviation ps * co_deviation ps <=
  sq_deviation (map fst ps) * sq_deviation (map snd ps).
Proof.
  unfold co_deviation, sq_deviation.
  set (mx := Rmean (map fst ps)). set (my := Rmean (map snd ps)).
  pose proof (cauchy_schwarz (map (fun p => (fst p - mx, snd p - my)) ps)) as H.
  rewrite !map_map in H. cbn [fst snd] in H.
  rewrite !map_map. exact H.
Qed.

Lemma pearson_range (ps : list (R * R)) (v : R) :
  pearson ps = Some v -> -1 <= v <= 1.
Proof.
  destruct ps as [|p ps]; [discriminate|].
  rewrite pearson_nonempty by discriminate.
  set (sx := sq_deviation (map fst (p :: ps))).
  set (sy := sq_deviation (map snd (p :: ps))).
  set (cv := co_deviation (p :: ps)).
  destruct (Req_dec_T (sqrt (sx * sy)) 0) as [E|E]; [discriminate|].
  intros Hv. inversion Hv; subst v. clear Hv.
  assert (Hprod : 0 <= sx * sy).
  { apply Rmult_le_pos; apply sq_deviation_nonneg. }
  assert (HD : 0 < sqrt (sx * sy)).
  { pose proof (sqrt_pos (sx * sy)). lra. }
  assert (HDD : sqrt (sx * sy) * sqrt (sx * sy) = sx * sy) by now apply sqrt_sqrt.
  assert (Hcs : cv * cv <= sx * sy) by apply co_deviation_square.
  set (D := sqrt (sx * sy)) in *.
  assert (Hup : cv <= D).
  { destruct (Rle_or_lt cv D) as [H|H]; [exact H|].
    assert (D * D < cv * cv).
    { apply Rle_lt_trans with (D * cv).
      - apply Rmult_le_compat_l; lra.
      - apply Rmult_lt_compat_r; lra. }
    lra. }
  assert (Hlow : - D <= cv).
  { destruct (Rle_or_lt (- D) cv) as [H|H]; [exact H|].
    assert (D * D < (- cv) * (- cv)).
    { apply Rle_lt_trans with (D * (- cv)).
      - apply Rmult_le_compat_l; lra.
      - apply Rmult_lt_compat_r; lra. }
    assert ((- cv) * (- cv) = cv * cv) by ring.
    lra. }
  unfold Rdiv. split.
  - apply Rmult_le_reg_r with D; [exact HD|].
    rewrite Rmult_assoc, Rinv_l by lra. lra.
  - apply Rmult_le_reg_r with D; [exact HD|].
    rewrite Rmult_assoc, Rinv_l by lra. lra.
Qed.

(** X16. Every entry of the correlation matrix that is not missing lies
    between -1 and 1. *)
Theorem X16_correlation_range (df : DataFrame) :
  (forall a b v, corr_entry df a b = Some v -> -1 <= v <= 1) /\
  (forall i j v, corr_at df i j = Some v -> -1 <= v <= 1).
Proof.
  split.
  - intros a b v. apply pearson_range.
  - intros i j v. rewrite corr_at_spec.
    destruct (nth_error numeric_columns i) as [a|]; [|discriminate].
    destruct (nth_error numeric_columns j) as [b|]; [|discriminate].
    apply pearson_range.
Qed.

Local Close Scope R_scope.
